(** * dnsdist: rule chains and rule constructors

    A shallow embedding of [pdns/dnsdist-lua-rules.cc]: the operations on the
    rule chains held by the global state holders ([rmRule], [moveRuleToTop],
    [mvRule], [getTopRules]), the rule construction dispatch [makeRule], and
    the Lua-facing rule constructors registered by [setupLuaRules].

    Conventions.
    - A [std::vector] is a [list]; an iterator into it is a position ([nat]).
    - [unsigned int] positions and [size_t] sizes are [nat]: the only
      arithmetic on them is [--to] in [mvRule], guarded by [from < to].
    - Match counters ([uint64_t]) are [N]; they are only compared.
    - Numeric constructor arguments are [Z], with the narrowing conversions
      of the constructor calls written as [Z.modulo].
    - An exception is an [Err] result; the state of the Lua context is the
      pair of the holder's vector and [g_outputBuffer]. *)

From Stdlib Require Import String Ascii List ZArith NArith Arith Bool Lia.
From Stdlib Require Import Permutation Sorted.
Import ListNotations.

(** ** Exceptions *)

Inductive Error : Type :=
| ParameterOutOfRange (parameter : string) (value max : Z)
| MalformedPattern (src : string)
| UnableToConvert (val : string)
| OutOfRange.

Inductive result (A : Type) : Type :=
| Ok (a : A)
| Err (e : Error).
Arguments Ok {A} a.
Arguments Err {A} e.

Definition bind {A B : Type} (r : result A) (k : A -> result B) : result B :=
  match r with
  | Ok a => k a
  | Err e => Err e
  end.

Notation "x <- r ;; k" := (bind r (fun x => k))
  (at level 61, r at next level, right associativity).
Notation "r ;;; k" := (bind r (fun _ => k))
  (at level 61, right associativity).

(** ** std::vector operations on positions *)

Module Vec.
Section Ops.
Context {A : Type}.

(** [v.erase(v.begin() + pos)] *)
Definition erase (pos : nat) (v : list A) : list A :=
firstn pos v ++ skipn (S pos) v.

(** [v.insert(v.begin() + pos, x)] *)
Definition insert (pos : nat) (x : A) (v : list A) : list A :=
firstn pos v ++ x :: skipn pos v.

(** [v.push_back(x)] *)
Definition push_back (x : A) (v : list A) : list A := v ++ [x].

(** [std::remove_if(v.begin(), v.end(), pred)]: the kept elements are
moved to the front in their order; the slots behind them keep what
they held.  Returns the vector and the iterator to the new logical
end. *)
Definition remove_if (pred : A -> bool) (v : list A) : list A * nat :=
let kept := filter (fun a => negb (pred a)) v in
(kept ++ skipn (length kept) v, length kept).

(** [v.erase(first, last)]: returns the vector and the iterator that
follows the last removed element, which is [first]. *)
Definition erase_range (first last : nat) (v : list A) : list A * nat :=
(firstn first v ++ skipn last v, first).

(** [v.end()] *)
Definition end_ (v : list A) : nat := length v.
End Ops.
End Vec.

(** ** Identifiers *)

(** [boost::uuids::uuid]: a 128-bit value. *)
Definition uuid : Type := N.

(** The two operands of [==] are not sequenced with respect to each other:
    a compiler evaluates either one first. *)
Inductive OperandOrder : Type :=
| LeftOperandFirst
| RightOperandFirst.

(** Line feed, for the messages written to [g_outputBuffer]. *)
Definition LF : string := String (ascii_of_nat 10) EmptyString.

(** [MaxQPSIPRule]'s constructor arguments, in the order of the call. *)
Record MaxQPSIPParams : Type := mkMaxQPSIPParams {
  d_qps : Z;
  d_burst : Z;
  d_ipv4trunc : Z;
  d_ipv6trunc : Z;
  d_expiration : Z;
  d_cleanupDelay : Z;
  d_scanFraction : Z
}.

(** [LuaArray<T>]: the (index, value) pairs of a Lua table, in order. *)
Definition LuaArray (A : Type) : Type := list (Z * A).

(** [std::numeric_limits<T>::max()] and the conversion to [T] of a wider
    unsigned value. *)
Definition uint8_max : Z := 255.
Definition uint16_max : Z := 65535.
Definition uint_max : Z := 4294967295.
Definition to_uint8 (v : Z) : Z := (v mod 2 ^ 8)%Z.
Definition to_uint16 (v : Z) : Z := (v mod 2 ^ 16)%Z.
Definition to_uint (v : Z) : Z := (v mod 2 ^ 32)%Z.

(** Modelled from the spec: [checkParameterBound] is declared in
    dnsdist-lua.hh and defined outside this file.  Numeric parameters that
    arrive as wider integers are range-checked against the target field and
    rejected with a descriptive error when out of range
    ([ParameterOutOfRange]). *)
Definition checkParameterBound (parameter : string) (value max : Z)
    : result unit :=
  if (max <? value)%Z
  then Err (ParameterOutOfRange parameter value max)
  else Ok tt.

(** Modelled from the spec: the [quiet] parameter of [NetmaskGroupRule] and
    [SuffixMatchNodeRule] has its default in dnsdist-rules.hh; the rules
    built by [makeRule] are non-quiet. *)
Definition default_quiet : bool := false.

(** [boost::optional<T>::get_value_or] *)
Definition get_value_or {A : Type} (o : option A) (v : A) : A :=
  match o with
  | Some a => a
  | None => v
  end.

Section Model.
Context {Netmask DNSName Action : Type}.

(** [NetmaskGroup] and [SuffixMatchNode] hold what was added to them. *)
Definition NetmaskGroup : Type := list Netmask.
Definition SuffixMatchNode : Type := list DNSName.

(** The rule classes constructed in this file.  Every [DNSRule] object
    carries its match counter [d_matches]. *)
Inductive DNSRule : Type :=
| Rule (matches : N) (self : RuleImpl)
with RuleImpl : Type :=
| NetmaskGroupRule (nmg : NetmaskGroup) (src quiet : bool)
| SuffixMatchNodeRule (smn : SuffixMatchNode) (quiet : bool)
| MaxQPSIPRule (params : MaxQPSIPParams)
| AllRule
| QTypeRule (qtype : Z)
| QClassRule (c : Z)
| OpcodeRule (code : Z)
| AndRule (rules : list DNSRule)
| OrRule (rules : list DNSRule)
| DSTPortRule (port : Z)
| NotRule (rule : DNSRule)
| RecordsCountRule (section minCount maxCount : Z)
| RecordsTypeCountRule (section type minCount maxCount : Z)
| QNameLabelsCountRule (minLabelsCount maxLabelsCount : Z)
| QNameWireLengthRule (min max : Z)
| RCodeRule (rcode : Z)
| ERCodeRule (rcode : Z)
| EDNSVersionRule (version : Z)
| EDNSOptionRule (optcode : Z).

Definition d_matches (r : DNSRule) : N :=
  match r with Rule m _ => m end.

Definition impl (r : DNSRule) : RuleImpl :=
  match r with Rule _ i => i end.

(** [std::shared_ptr<DNSRule>(new C(...))] and [std::make_shared<C>(...)]:
    a fresh object, whose counter has not counted anything yet. *)
Definition new (i : RuleImpl) : DNSRule := Rule 0%N i.

(** A chain entry, [DNSDistRuleAction] or [DNSDistResponseRuleAction]
    (the template parameter [T]). *)
Record RuleAction : Type := mkRuleAction {
  d_rule : DNSRule;
  d_action : Action;
  d_name : string;
  d_id : uuid;
  d_creationOrder : N
}.

(** The holder's vector together with [g_outputBuffer]. *)
Record LuaState : Type := mkLuaState {
  someRuleActions : list RuleAction;
  g_outputBuffer : string
}.

Definition getCopy (st : LuaState) : list RuleAction := someRuleActions st.

Definition setState (rules : list RuleAction) (st : LuaState) : LuaState :=
  mkLuaState rules (g_outputBuffer st).

Definition setOutput (msg : string) (st : LuaState) : LuaState :=
  mkLuaState (someRuleActions st) msg.

(** The second argument of [rmRule]: [boost::variant<unsigned int, std::string>]. *)
Inductive RuleId : Type :=
| IdPos (pos : nat)
| IdStr (str : string).

(** [rules.erase(std::remove_if(rules.begin(), rules.end(), pred),
                 rules.end()) == rules.end()]
    on the working copy.  The left operand shrinks the vector; the right
    operand reads its end, before or after that. *)
Definition erase_remove_if_is_end (order : OperandOrder)
    (pred : RuleAction -> bool) (rules : list RuleAction)
    : list RuleAction * bool :=
  match order with
  | LeftOperandFirst =>
      let '(moved, first) := Vec.remove_if pred rules in
      let '(erased, ret) := Vec.erase_range first (Vec.end_ moved) moved in
      (erased, ret =? Vec.end_ erased)
  | RightOperandFirst =>
      let right := Vec.end_ rules in
      let '(moved, first) := Vec.remove_if pred rules in
      let '(erased, ret) := Vec.erase_range first (Vec.end_ moved) moved in
      (erased, ret =? right)
  end.

Section Chain.
(** [getUniqueID(const std::string&)]: [None] when it throws
    [std::runtime_error] because the string is not a UUID. *)
Variable getUniqueID : string -> option uuid.

Definition rmRule (order : OperandOrder) (st : LuaState) (id : RuleId)
    : LuaState :=
  let rules := getCopy st in
  match id with
  | IdStr str =>
      match getUniqueID str with
      | Some u =>
          let '(rules', is_end) :=
            erase_remove_if_is_end order
              (fun a => N.eqb (d_id a) u) rules in
          if is_end
          then setOutput ("Error: no rule matched" ++ LF)%string st
          else setState rules' st
      | None =>
          (* it was not an UUID, let's see if it was a name instead *)
          let '(rules', is_end) :=
            erase_remove_if_is_end order
              (fun a => String.eqb (d_name a) str) rules in
          if is_end
          then setOutput ("Error: no rule matched" ++ LF)%string st
          else setState rules' st
      end
  | IdPos pos =>
      if length rules <=? pos
      then setOutput ("Error: attempt to delete non-existing rule" ++ LF)%string st
      else setState (Vec.erase pos rules) st
  end.
End Chain.

Definition moveRuleToTop (st : LuaState) : LuaState :=
  let rules := getCopy st in
  match rules with
  | [] => st
  | _ :: _ =>
      match nth_error rules (length rules - 1) with
      | Some subject =>
          let rules := Vec.erase (length rules - 1) rules in
          setState (Vec.insert 0 subject rules) st
      | None => st
      end
  end.

Definition mvRule (st : LuaState) (from to : nat) : LuaState :=
  let rules := getCopy st in
  if (length rules <=? from) || (length rules <? to)
  then setOutput ("Error: attempt to move rules from/to invalid index" ++ LF)%string st
  else
    match nth_error rules from with
    | Some subject =>
        let rules := Vec.erase from rules in
        if length rules <? to
        then setState (Vec.push_back subject rules) st
        else
          let to := if from <? to then to - 1 else to in
          setState (Vec.insert to subject rules) st
    | None => st
    end.

(** *** getTopRules *)

(** The comparator handed to [sort]. *)
Definition comp (a b : N * nat) : bool := (fst b <? fst a)%N.

(** The first loop: one (matches, position) pair per rule. *)
Fixpoint count_rules (rules : list RuleAction) (pos : nat)
    (counts : list (N * nat)) : list (N * nat) :=
  match rules with
  | [] => counts
  | rule :: rest =>
      count_rules rest (S pos)
        (Vec.push_back (d_matches (d_rule rule), pos) counts)
  end.

(** The second loop; [rules.at] throws [std::out_of_range]. *)
Fixpoint collect (rules : list RuleAction) (top : nat)
    (counts : list (N * nat)) (count : nat) (results : list RuleAction)
    : result (list RuleAction) :=
  match counts with
  | [] => Ok results
  | entry :: rest =>
      match nth_error rules (snd entry) with
      | None => Err OutOfRange
      | Some r =>
          let results := Vec.push_back r results in
          let count := S count in
          if count =? top
          then Ok results
          else collect rules top rest count results
      end
  end.

Section TopRules.
(** [std::sort(first, last, comp)], from the C++ library. *)
Variable sort :
  (N * nat -> N * nat -> bool) -> list (N * nat) -> list (N * nat).

Definition getTopRules (rules : list RuleAction) (top : nat)
    : result (list RuleAction) :=
  let counts := count_rules rules 0 [] in
  let counts := sort comp counts in
  collect rules top counts 0 [].
End TopRules.

(** *** makeRule *)

Inductive luadnsrule_t : Type :=
| VarRule (r : DNSRule)
| VarString (s : string)
| VarStrings (a : LuaArray string)
| VarDNSName (n : DNSName)
| VarDNSNames (a : LuaArray DNSName).

Section MakeRule.
(** [Netmask(const std::string&)], as called by [nmg.addMask(src)], and
    [DNSName(const std::string&)]: [None] when they throw. *)
Variable Netmask_of_string : string -> option Netmask.
Variable DNSName_of_string : string -> option DNSName.

(** The lambda [add], on the pair of [smn] and [nmg] it captures. *)
Definition add (src : string) (acc : SuffixMatchNode * NetmaskGroup)
    : result (SuffixMatchNode * NetmaskGroup) :=
  let '(smn, nmg) := acc in
  match Netmask_of_string src with
  | Some mask => Ok (smn, nmg ++ [mask])
  | None =>
      match DNSName_of_string src with
      | Some name => Ok (smn ++ [name], nmg)
      | None => Err (MalformedPattern src)
      end
  end.

Fixpoint add_each (a : LuaArray string)
    (acc : SuffixMatchNode * NetmaskGroup)
    : result (SuffixMatchNode * NetmaskGroup) :=
  match a with
  | [] => Ok acc
  | e :: rest => acc <- add (snd e) acc ;; add_each rest acc
  end.

Fixpoint smn_add_each (a : LuaArray DNSName) (smn : SuffixMatchNode)
    : SuffixMatchNode :=
  match a with
  | [] => smn
  | e :: rest => smn_add_each rest (smn ++ [snd e])
  end.

Definition makeRule (var : luadnsrule_t) : result DNSRule :=
  match var with
  | VarRule r => Ok r
  | _ =>
      acc <- match var with
             | VarString s => add s ([], [])
             | VarStrings a => add_each a ([], [])
             | VarDNSName n => Ok ([n], [])
             | VarDNSNames a => Ok (smn_add_each a [], [])
             | VarRule _ => Ok ([], [])
             end ;;
      let '(smn, nmg) := acc in
      match nmg with
      | [] => Ok (new (SuffixMatchNodeRule smn default_quiet))
      | _ :: _ => Ok (new (NetmaskGroupRule nmg true default_quiet))
      end
  end.
End MakeRule.

(** *** The rule constructors registered by [setupLuaRules] *)

Definition lua_MaxQPSIPRule (qps : Z)
    (ipv4trunc ipv6trunc burst expiration cleanupDelay scanFraction
      : option Z) : DNSRule :=
  new (MaxQPSIPRule
         (mkMaxQPSIPParams qps (get_value_or burst qps)
            (get_value_or ipv4trunc 32%Z) (get_value_or ipv6trunc 64%Z)
            (get_value_or expiration 300%Z)
            (get_value_or cleanupDelay 60%Z)
            (get_value_or scanFraction 10%Z))).

Definition lua_AllRule : DNSRule := new AllRule.

(** The argument of the Lua function [QTypeRule]:
    [boost::variant<unsigned int, std::string>]. *)
Inductive QTypeArg : Type :=
| QTypeNum (dir : Z)
| QTypeName (val : string).

Section QType.
(** [QType::chartocode]: zero for an unknown type name. *)
Variable chartocode : string -> Z.

Definition lua_QTypeRule (str : QTypeArg) : result DNSRule :=
  match str with
  | QTypeNum dir =>
      let qtype := to_uint16 dir in
      Ok (new (QTypeRule qtype))
  | QTypeName val =>
      let qtype := to_uint16 (chartocode val) in
      if (qtype =? 0)%Z
      then Err (UnableToConvert val)
      else Ok (new (QTypeRule qtype))
  end.
End QType.

Definition lua_QClassRule (c : Z) : result DNSRule :=
  checkParameterBound "QClassRule" c uint16_max ;;;
  Ok (new (QClassRule (to_uint16 c))).

Definition lua_OpcodeRule (code : Z) : result DNSRule :=
  checkParameterBound "OpcodeRule" code uint8_max ;;;
  Ok (new (OpcodeRule (to_uint8 code))).

Definition lua_AndRule (a : LuaArray DNSRule) : DNSRule :=
  new (AndRule (map snd a)).

Definition lua_OrRule (a : LuaArray DNSRule) : DNSRule :=
  new (OrRule (map snd a)).

Definition lua_DSTPortRule (port : Z) : result DNSRule :=
  checkParameterBound "DSTPortRule" port uint16_max ;;;
  Ok (new (DSTPortRule (to_uint16 port))).

Definition lua_NotRule (rule : DNSRule) : DNSRule :=
  new (NotRule rule).

Definition lua_RecordsCountRule (section minCount maxCount : Z)
    : result DNSRule :=
  checkParameterBound "RecordsCountRule" section uint8_max ;;;
  checkParameterBound "RecordsCountRule" minCount uint16_max ;;;
  checkParameterBound "RecordsCountRule" maxCount uint16_max ;;;
  Ok (new (RecordsCountRule (to_uint8 section) (to_uint16 minCount)
             (to_uint16 maxCount))).

Definition lua_RecordsTypeCountRule (section type minCount maxCount : Z)
    : result DNSRule :=
  checkParameterBound "RecordsTypeCountRule" section uint8_max ;;;
  checkParameterBound "RecordsTypeCountRule" type uint16_max ;;;
  checkParameterBound "RecordsTypeCountRule" minCount uint16_max ;;;
  checkParameterBound "RecordsTypeCountRule" maxCount uint16_max ;;;
  Ok (new (RecordsTypeCountRule (to_uint8 section) (to_uint16 type)
             (to_uint16 minCount) (to_uint16 maxCount))).

Definition lua_QNameLabelsCountRule (minLabelsCount maxLabelsCount : Z)
    : result DNSRule :=
  checkParameterBound "QNameLabelsCountRule" minLabelsCount uint_max ;;;
  checkParameterBound "QNameLabelsCountRule" maxLabelsCount uint_max ;;;
  Ok (new (QNameLabelsCountRule (to_uint minLabelsCount)
             (to_uint maxLabelsCount))).

Definition lua_QNameWireLengthRule (min max : Z) : DNSRule :=
  new (QNameWireLengthRule min max).

Definition lua_RCodeRule (rcode : Z) : result DNSRule :=
  checkParameterBound "RCodeRule" rcode uint8_max ;;;
  Ok (new (RCodeRule (to_uint8 rcode))).

Definition lua_ERCodeRule (rcode : Z) : result DNSRule :=
  checkParameterBound "ERCodeRule" rcode uint8_max ;;;
  Ok (new (ERCodeRule (to_uint8 rcode))).

Definition lua_EDNSVersionRule (version : Z) : result DNSRule :=
  checkParameterBound "EDNSVersionRule" version uint8_max ;;;
  Ok (new (EDNSVersionRule (to_uint8 version))).

Definition lua_EDNSOptionRule (optcode : Z) : result DNSRule :=
  checkParameterBound "EDNSOptionRule" optcode uint16_max ;;;
  Ok (new (EDNSOptionRule (to_uint16 optcode))).
End Model.

(** ** What the C++ library promises of [std::sort] *)

(** The result is a rearrangement of the input in which no element is
    ordered by [comp] before an element that precedes it. *)
Definition std_sort_spec
    (sort : (N * nat -> N * nat -> bool) -> list (N * nat) -> list (N * nat))
    : Prop :=
  forall l,
    Permutation (sort comp l) l /\
    StronglySorted (fun a b => comp b a = false) (sort comp l).

(** A sort is stable when elements that compare equivalent keep their
    relative order: here, for each match count, the pairs with that count
    come out in the order they went in. *)
Definition stable
    (sort : (N * nat -> N * nat -> bool) -> list (N * nat) -> list (N * nat))
    : Prop :=
  forall l k,
    filter (fun e => (fst e =? k)%N) (sort comp l) =
    filter (fun e => (fst e =? k)%N) l.

(** Two insertion sorts, both within what [std::sort] promises.  [x] is
    inserted in front of the first [y] at which [stop x y] holds. *)
Fixpoint insert_when {A : Type} (stop : A -> A -> bool) (x : A) (l : list A)
    : list A :=
  match l with
  | [] => [x]
  | y :: l' => if stop x y then x :: y :: l' else y :: insert_when stop x l'
  end.

Fixpoint insertion_sort {A : Type} (stop : A -> A -> bool) (l : list A)
    : list A :=
  match l with
  | [] => []
  | x :: l' => insert_when stop x (insertion_sort stop l')
  end.

(** Equivalent elements keep their order: [x] passes only the elements
    that [c] orders before it. *)
Definition sort_ties_kept {A : Type} (c : A -> A -> bool) (l : list A)
    : list A :=
  insertion_sort (fun x y => negb (c y x)) l.

(** Equivalent elements end up in reverse order: [x] stops only at an
    element that [c] orders after it. *)
Definition sort_ties_reversed {A : Type} (c : A -> A -> bool) (l : list A)
    : list A :=
  insertion_sort (fun x y => c x y) l.

(** ** std::sort as GNU libstdc++ implements it

    The chain operations above leave [std::sort] open.  The build of the
    sources with GCC links libstdc++, whose [std::sort] (bits/stl_algo.h,
    with the heap functions of bits/stl_heap.h) is introsort: median-of-three
    partitioning while a range has more than sixteen elements, heap sort
    when the depth limit is used up, and a final insertion sort.  A vector
    is a list, an iterator a position in it; a loop takes the length of the
    vector as its fuel, which bounds the steps it can take inside the
    vector. *)

Module Libstdcxx.
Section Sort.
Context {A : Type}.
(** What a read outside the vector would give; the algorithm makes none. *)
Variable out_of_range : A.
Variable comp : A -> A -> bool.

Definition at_ (v : list A) (i : nat) : A := nth i v out_of_range.

(** [*(first + i) = x] *)
Definition put (v : list A) (i : nat) (x : A) : list A :=
  if i <? length v then firstn i v ++ x :: skipn (S i) v else v.

Definition iter_swap (v : list A) (i j : nat) : list A :=
  put (put v i (at_ v j)) j (at_ v i).

Definition _S_threshold : nat := 16.

Definition __move_median_to_first (v : list A) (result a b c : nat)
    : list A :=
  if comp (at_ v a) (at_ v b) then
    if comp (at_ v b) (at_ v c) then iter_swap v result b
    else if comp (at_ v a) (at_ v c) then iter_swap v result c
    else iter_swap v result a
  else if comp (at_ v a) (at_ v c) then iter_swap v result a
  else if comp (at_ v b) (at_ v c) then iter_swap v result c
  else iter_swap v result b.

(** [while (comp(first, pivot)) ++first;] *)
Fixpoint advance (fuel : nat) (v : list A) (first pivot : nat) : nat :=
  match fuel with
  | 0 => first
  | S fuel =>
      if comp (at_ v first) (at_ v pivot)
      then advance fuel v (S first) pivot
      else first
  end.

(** [while (comp(pivot, last)) --last;] *)
Fixpoint retreat (fuel : nat) (v : list A) (pivot last : nat) : nat :=
  match fuel with
  | 0 => last
  | S fuel =>
      if comp (at_ v pivot) (at_ v last)
      then retreat fuel v pivot (last - 1)
      else last
  end.

Fixpoint __unguarded_partition (fuel : nat) (v : list A)
    (first last pivot : nat) : list A * nat :=
  match fuel with
  | 0 => (v, first)
  | S fuel =>
      let first := advance (length v) v first pivot in
      let last := last - 1 in
      let last := retreat (length v) v pivot last in
      if negb (first <? last) then (v, first)
      else
        let v := iter_swap v first last in
        __unguarded_partition fuel v (S first) last pivot
  end.

Definition __unguarded_partition_pivot (v : list A) (first last : nat)
    : list A * nat :=
  let mid := first + (last - first) / 2 in
  let v := __move_median_to_first v first (first + 1) mid (last - 1) in
  __unguarded_partition (length v) v (first + 1) last first.

(** *** Heap sort *)

Fixpoint __push_heap (fuel : nat) (v : list A)
    (first holeIndex topIndex : nat) (value : A) : list A :=
  let parent := (holeIndex - 1) / 2 in
  match fuel with
  | 0 => put v (first + holeIndex) value
  | S fuel =>
      if (topIndex <? holeIndex) && comp (at_ v (first + parent)) value
      then
        let v := put v (first + holeIndex) (at_ v (first + parent)) in
        __push_heap fuel v first parent topIndex value
      else put v (first + holeIndex) value
  end.

(** The first loop of [__adjust_heap]. *)
Fixpoint sift_down (fuel : nat) (v : list A)
    (first holeIndex secondChild len : nat) : list A * nat * nat :=
  match fuel with
  | 0 => (v, holeIndex, secondChild)
  | S fuel =>
      if secondChild <? (len - 1) / 2 then
        let secondChild := 2 * (secondChild + 1) in
        let secondChild :=
          if comp (at_ v (first + secondChild))
               (at_ v (first + (secondChild - 1)))
          then secondChild - 1 else secondChild in
        let v := put v (first + holeIndex) (at_ v (first + secondChild)) in
        sift_down fuel v first secondChild secondChild len
      else (v, holeIndex, secondChild)
  end.

Definition __adjust_heap (v : list A) (first holeIndex len : nat)
    (value : A) : list A :=
  let topIndex := holeIndex in
  let '(v, holeIndex, secondChild) :=
    sift_down (length v) v first holeIndex holeIndex len in
  let '(v, holeIndex) :=
    if Nat.even len && (secondChild =? (len - 2) / 2) then
      let secondChild := 2 * (secondChild + 1) in
      (put v (first + holeIndex) (at_ v (first + (secondChild - 1))),
       secondChild - 1)
    else (v, holeIndex) in
  __push_heap (length v) v first holeIndex topIndex value.

Definition __pop_heap (v : list A) (first last result : nat) : list A :=
  let value := at_ v result in
  let v := put v result (at_ v first) in
  __adjust_heap v first 0 (last - first) value.

Fixpoint make_heap_loop (fuel : nat) (v : list A) (first len parent : nat)
    : list A :=
  match fuel with
  | 0 => v
  | S fuel =>
      let value := at_ v (first + parent) in
      let v := __adjust_heap v first parent len value in
      if parent =? 0 then v
      else make_heap_loop fuel v first len (parent - 1)
  end.

Definition __make_heap (v : list A) (first last : nat) : list A :=
  if last - first <? 2 then v
  else
    let len := last - first in
    let parent := (len - 2) / 2 in
    make_heap_loop (length v) v first len parent.

(** [for (i = middle; i < last; ++i) if (comp(i, first)) __pop_heap(...)] *)
Fixpoint heap_select_loop (fuel : nat) (v : list A)
    (first middle last i : nat) : list A :=
  match fuel with
  | 0 => v
  | S fuel =>
      if i <? last then
        let v :=
          if comp (at_ v i) (at_ v first)
          then __pop_heap v first middle i else v in
        heap_select_loop fuel v first middle last (S i)
      else v
  end.

Definition __heap_select (v : list A) (first middle last : nat) : list A :=
  let v := __make_heap v first middle in
  heap_select_loop (length v) v first middle last middle.

Fixpoint __sort_heap (fuel : nat) (v : list A) (first last : nat) : list A :=
  match fuel with
  | 0 => v
  | S fuel =>
      if 1 <? last - first then
        let last := last - 1 in
        let v := __pop_heap v first last last in
        __sort_heap fuel v first last
      else v
  end.

Definition __partial_sort (v : list A) (first middle last : nat) : list A :=
  let v := __heap_select v first middle last in
  __sort_heap (length v) v first middle.

(** *** Insertion sort *)

(** The loop of [__unguarded_linear_insert]. *)
Fixpoint linear_insert (fuel : nat) (v : list A) (val : A) (last : nat)
    : list A :=
  let next := last - 1 in
  match fuel with
  | 0 => put v last val
  | S fuel =>
      if comp val (at_ v next)
      then linear_insert fuel (put v last (at_ v next)) val next
      else put v last val
  end.

Definition __unguarded_linear_insert (v : list A) (last : nat) : list A :=
  linear_insert (length v) v (at_ v last) last.

(** [std::move_backward(first, i, i + 1); *first = val;] *)
Definition move_backward_and_put (v : list A) (first i : nat) (val : A)
    : list A :=
  firstn first v ++ val :: firstn (i - first) (skipn first v) ++ skipn (S i) v.

(** The loop of [__insertion_sort], with [n] positions still to go. *)
Fixpoint insertion_loop (n : nat) (v : list A) (first i : nat) : list A :=
  match n with
  | 0 => v
  | S n =>
      let v :=
        if comp (at_ v i) (at_ v first)
        then move_backward_and_put v first i (at_ v i)
        else __unguarded_linear_insert v i in
      insertion_loop n v first (S i)
  end.

Definition __insertion_sort (v : list A) (first last : nat) : list A :=
  if first =? last then v
  else insertion_loop (last - (first + 1)) v first (first + 1).

Fixpoint __unguarded_insertion_sort (n : nat) (v : list A) (i : nat)
    : list A :=
  match n with
  | 0 => v
  | S n => __unguarded_insertion_sort n (__unguarded_linear_insert v i) (S i)
  end.

Definition __final_insertion_sort (v : list A) (first last : nat) : list A :=
  if _S_threshold <? last - first then
    let v := __insertion_sort v first (first + _S_threshold) in
    __unguarded_insertion_sort (last - (first + _S_threshold)) v
      (first + _S_threshold)
  else __insertion_sort v first last.

(** *** Introsort *)

Fixpoint __introsort_loop (fuel : nat) (v : list A)
    (first last depth_limit : nat) : list A :=
  match fuel with
  | 0 => v
  | S fuel =>
      if _S_threshold <? last - first then
        match depth_limit with
        | 0 => __partial_sort v first last last
        | S depth_limit =>
            let '(v, cut) := __unguarded_partition_pivot v first last in
            let v := __introsort_loop fuel v cut last depth_limit in
            __introsort_loop fuel v first cut depth_limit
        end
      else v
  end.

Definition __sort (v : list A) : list A :=
  let first := 0 in
  let last := length v in
  if first =? last then v
  else
    let v :=
      __introsort_loop (length v) v first last (Nat.log2 (last - first) * 2)
    in
    __final_insertion_sort v first last.
End Sort.
End Libstdcxx.

(** [sort(counts.begin(), counts.end(), comp)] in that build. *)
Definition std_sort (c : N * nat -> N * nat -> bool) (l : list (N * nat))
    : list (N * nat) :=
  Libstdcxx.__sort (0%N, 0) c l.

(** ** The properties of [getTopRules] *)

Section TopRulesProperties.
Context {Netmask DNSName Action : Type}.
Let entry : Type := @RuleAction Netmask DNSName Action.

(** The pair [e] stands for the rule [r] of the chain. *)
Definition selects (rules : list entry) (e : N * nat) (r : entry) : Prop :=
  nth_error rules (snd e) = Some r /\ fst e = d_matches (d_rule r).

(** Sorted by match count, descending. *)
Definition descending (res : list entry) : Prop :=
  StronglySorted
    (fun a b => (d_matches (d_rule b) <= d_matches (d_rule a))%N) res.

(** Entries with equal match counts appear in the order of their
    positions in the chain. *)
Definition ties_by_position (rules res : list entry) : Prop :=
  exists sel,
    Forall2 (selects rules) sel res /\
    StronglySorted (fun a b => fst a = fst b -> snd a < snd b) sel.

(** The pairs built by the first loop of [getTopRules]. *)
Definition counts_of (rules : list entry) : list (N * nat) :=
  combine (map (fun r => d_matches (d_rule r)) rules) (seq 0 (length rules)).
End TopRulesProperties.

(** ** The properties of [rmRule], in the words of the specification *)

Section RemoveProperties.
Context {Netmask DNSName Action : Type}.
Let entry : Type := @RuleAction Netmask DNSName Action.

(** Removal of the first matching entry, and of that one only. *)
Fixpoint remove_first (pred : entry -> bool) (rules : list entry)
    : list entry :=
  match rules with
  | [] => []
  | a :: rest => if pred a then rest else a :: remove_first pred rest
  end.

Definition has_id (u : uuid) (a : entry) : bool := N.eqb (d_id a) u.
Definition has_name (str : string) (a : entry) : bool :=
  String.eqb (d_name a) str.

(** The entries that [rmRule] looks for, given a string. *)
Definition matching (getUniqueID : string -> option uuid) (str : string)
    : entry -> bool :=
  match getUniqueID str with
  | Some u => has_id u
  | None => has_name str
  end.

(** "If parsing succeeds and some entry has that id, that entry is removed
    from the published chain; if parsing fails and some entry has that
    string as its name, the first such entry is removed." *)
Definition removes_first_match (getUniqueID : string -> option uuid)
    (order : OperandOrder) (st : LuaState) (str : string) : Prop :=
  existsb (matching getUniqueID str) (someRuleActions st) = true ->
  someRuleActions (rmRule getUniqueID order st (IdStr str)) =
  remove_first (matching getUniqueID str) (someRuleActions st).
End RemoveProperties.

(** ** The properties of [makeRule] *)

Section MakeRuleProperties.
Context {Netmask DNSName : Type}.
Variable Netmask_of_string : string -> option Netmask.
Variable DNSName_of_string : string -> option DNSName.

(** The masks accepted from the strings of a Lua array, in order. *)
Definition masks_of (a : LuaArray string) : list Netmask :=
  flat_map
    (fun e => match Netmask_of_string (snd e) with
              | Some mask => [mask]
              | None => []
              end) a.

(** The domain suffixes made of the strings that are not masks. *)
Definition suffixes_of (a : LuaArray string) : list DNSName :=
  flat_map
    (fun e => match Netmask_of_string (snd e) with
              | Some _ => []
              | None =>
                  match DNSName_of_string (snd e) with
                  | Some name => [name]
                  | None => []
                  end
              end) a.

(** Every string that is not a mask is accepted as a domain name. *)
Definition suffix_or_mask (a : LuaArray string) : Prop :=
  forall e, In e a ->
    Netmask_of_string (snd e) = None -> DNSName_of_string (snd e) <> None.
End MakeRuleProperties.

(** ** Sample inputs *)

Module Sample.
Local Open Scope string_scope.

(** Chains whose masks, names and actions are written as strings. *)
Definition entry : Type := @RuleAction string string string.
Definition state : Type := @LuaState string string string.

Definition uuid_text : string := "6a1f3b52-0c4e-4d39-9a57-2f1e8b7c4d10".
Definition other_uuid_text : string := "00000000-0000-0000-0000-000000000001".

(** A [getUniqueID] that knows two UUIDs and throws on anything else. *)
Definition getUniqueID (s : string) : option uuid :=
  if String.eqb s uuid_text then Some 42%N
  else if String.eqb s other_uuid_text then Some 1%N
  else None.

Definition drop_a : entry :=
  mkRuleAction (Rule 7 (QTypeRule 1)) "Drop" "block-a" 42%N 0%N.
Definition allow_all : entry :=
  mkRuleAction (Rule 7 AllRule) "Allow" "default" 43%N 1%N.
Definition dup1 : entry :=
  mkRuleAction (Rule 0 (QTypeRule 28)) "Drop" "dup" 44%N 2%N.
Definition dup2 : entry :=
  mkRuleAction (Rule 3 (QClassRule 3)) "Drop" "dup" 45%N 3%N.

Definition chain : list entry := [drop_a; allow_all; dup1].
Definition dup_chain : list entry := [dup1; allow_all; dup2].
Definition tied_chain : list entry := [drop_a; allow_all].

Definition st (rules : list entry) : state := mkLuaState rules "".

(** Parsers for [makeRule]: two masks are known; a name longer than 255
    characters is refused. *)
Definition Netmask_of_string (s : string) : option string :=
  if String.eqb s "10.0.0.0/8" then Some s
  else if String.eqb s "192.168.0.0/16" then Some s
  else None.

Definition DNSName_of_string (s : string) : option string :=
  if Nat.ltb 255 (String.length s) then None else Some s.

Definition mixed : LuaArray string :=
  [(1%Z, "10.0.0.0/8"); (2%Z, "example.com")].
Definition names_only : LuaArray string :=
  [(1%Z, "example.com"); (2%Z, "example.org")].
End Sample.

(** ** Rule parameters, listings and bulk replacement *)

(** What the functions below throw besides the errors above. *)
Inductive thrown : Type :=
| not_a_uuid (id : string)
| bad_get.

(** A call on a state [S]: it returns with a new state, or throws and
    leaves the state it had reached. *)
Inductive outcome (S : Type) : Type :=
| Done (s : S)
| Threw (e : thrown) (s : S).
Arguments Done {S} s.
Arguments Threw {S} e s.

(** [luaruleparams_t], a table from strings to strings, read through
    [count] and [at]. *)
Definition luaruleparams_t : Type := string -> option string.

(** [ruleparams_t], a table from strings to
    [boost::variant<bool, int, std::string, LuaArray<int>>]. *)
Inductive ruleparam : Type :=
| ParamBool (b : bool)
| ParamInt (i : Z)
| ParamString (s : string)
| ParamInts (a : LuaArray Z).

Definition ruleparams_t : Type := string -> option ruleparam.

(** [boost::get<bool>] and [boost::get<int>] on a variant. *)
Definition get_bool (v : ruleparam) : bool + thrown :=
  match v with
  | ParamBool b => inl b
  | _ => inr bad_get
  end.

Definition get_int (v : ruleparam) : Z + thrown :=
  match v with
  | ParamInt i => inl i
  | _ => inr bad_get
  end.

(** The conversion of an [int] to [size_t], and [std::string::npos]. *)
Definition to_size_t (i : Z) : N := Z.to_N (i mod 2 ^ 64).
Definition npos : N := (2 ^ 64 - 1)%N.

(** [s.substr(0, count)] *)
Fixpoint substr0 (s : string) (count : N) : string :=
  match s with
  | EmptyString => EmptyString
  | String c s' =>
      if (count =? 0)%N then EmptyString
      else String c (substr0 s' (N.pred count))
  end.

(** The arguments fed to a [boost::format]. *)
Inductive format_arg : Type :=
| FmtString (s : string)
| FmtInt (i : Z)
| FmtUInt (n : N).

(** The references and the static counter of [parseRuleParams]. *)
Record RuleParamsState : Type := mkRuleParamsState {
  ref_uuid : uuid;
  ref_name : string;
  ref_creationOrder : N;
  s_creationOrder : N
}.

Section MoreModel.
Context {Netmask DNSName Action : Type}.
Let entry : Type := @RuleAction Netmask DNSName Action.
Let state : Type := @LuaState Netmask DNSName Action.

(** *** makeRuleID and parseRuleParams *)

Section RuleParams.
Variable getUniqueID : string -> option uuid.

(** [fresh] is the identifier that [getUniqueID()] generates. *)
Definition makeRuleID (fresh : uuid) (id : string) : uuid + thrown :=
  if String.eqb id ""
  then inl fresh
  else
    match getUniqueID id with
    | Some u => inl u
    | None => inr (not_a_uuid id)
    end.

Definition parseRuleParams (fresh : uuid) (params : option luaruleparams_t)
    (st : RuleParamsState) : outcome RuleParamsState :=
  let uuidStr :=
    match params with
    | Some p => match p "uuid"%string with Some v => v | None => ""%string end
    | None => ""%string
    end in
  let name :=
    match params with
    | Some p => match p "name"%string with Some v => v | None => ref_name st end
    | None => ref_name st
    end in
  let st := mkRuleParamsState (ref_uuid st) name (ref_creationOrder st)
              (s_creationOrder st) in
  match makeRuleID fresh uuidStr with
  | inr e => Threw e st
  | inl u =>
      Done (mkRuleParamsState u name (s_creationOrder st)
              ((s_creationOrder st + 1) mod 2 ^ 64)%N)
  end.
End RuleParams.

(** *** rulesToString and showRules *)

Section Listing.
(** [(boost::format(f) % a1 % ... % an).str()], and the [toString] of
    rules, actions and identifiers. *)
Variable format : string -> list format_arg -> string.
Variable rule_toString : @DNSRule Netmask DNSName -> string.
Variable action_toString : Action -> string.
Variable uuid_to_string : uuid -> string.

Definition fmt_with_uuids : string :=
  ("%-3d %-30s %-38s %9d %9d %-56s %s" ++ LF)%string.
Definition fmt_plain : string := ("%-3d %-30s %9d %-56s %s" ++ LF)%string.

(** The body of the loop with identifiers shown, and without. *)
Definition row_with_uuids (truncateRuleWidth : N) (num : Z) (lim : entry)
    : string :=
  let desc := substr0 (rule_toString (d_rule lim)) truncateRuleWidth in
  format fmt_with_uuids
    [FmtInt num; FmtString (d_name lim); FmtString (uuid_to_string (d_id lim));
     FmtUInt (d_creationOrder lim); FmtUInt (d_matches (d_rule lim));
     FmtString desc; FmtString (action_toString (d_action lim))].

Definition row_plain (truncateRuleWidth : N) (num : Z) (lim : entry)
    : string :=
  let desc := substr0 (rule_toString (d_rule lim)) truncateRuleWidth in
  format fmt_plain
    [FmtInt num; FmtString (d_name lim); FmtUInt (d_matches (d_rule lim));
     FmtString desc; FmtString (action_toString (d_action lim))].

(** [for (const auto& lim : rules) { result += row; ++num; }] *)
Fixpoint rows (row : Z -> entry -> string) (rules : list entry) (num : Z)
    (result : string) : string :=
  match rules with
  | [] => result
  | lim :: rest => rows row rest (num + 1)%Z (result ++ row num lim)%string
  end.

(** The options [showUUIDs] and [truncateRuleWidth] read from [vars]. *)
Definition read_showUUIDs (vars : option ruleparams_t) : bool + thrown :=
  match vars with
  | Some v =>
      match v "showUUIDs"%string with
      | Some x => get_bool x
      | None => inl false
      end
  | None => inl false
  end.

Definition read_truncateRuleWidth (vars : option ruleparams_t) : N + thrown :=
  match vars with
  | Some v =>
      match v "truncateRuleWidth"%string with
      | Some x =>
          match get_int x with
          | inl i => inl (to_size_t i)
          | inr e => inr e
          end
      | None => inl npos
      end
  | None => inl npos
  end.

Definition rulesToString (rules : list entry) (vars : option ruleparams_t)
    : string + thrown :=
  match read_showUUIDs vars with
  | inr e => inr e
  | inl showUUIDs =>
      match read_truncateRuleWidth vars with
      | inr e => inr e
      | inl truncateRuleWidth =>
          if showUUIDs
          then
            inl (rows (row_with_uuids truncateRuleWidth) rules 0%Z
                   (format fmt_with_uuids
                      [FmtString "#"; FmtString "Name"; FmtString "UUID";
                       FmtString "Cr. Order"; FmtString "Matches";
                       FmtString "Rule"; FmtString "Action"]))
          else
            inl (rows (row_plain truncateRuleWidth) rules 0%Z
                   (format fmt_plain
                      [FmtString "#"; FmtString "Name"; FmtString "Matches";
                       FmtString "Rule"; FmtString "Action"]))
      end
  end.

Definition showRules (st : state) (vars : option ruleparams_t)
    : outcome state :=
  let rules := someRuleActions st in
  match rulesToString rules vars with
  | inl s => Done (setOutput (g_outputBuffer st ++ s)%string st)
  | inr e => Threw e st
  end.
End Listing.

(** *** clearRules, setRules and the Lua function getTopRules *)

(** [holder.modify(act)]: [act] runs on a copy, which is then published. *)
Definition modify (act : list entry -> result (list entry)) (st : state)
    : result state :=
  rules <- act (getCopy st) ;; Ok (setState rules st).

Definition clearRules (st : state) : result state :=
  modify (fun _ => Ok []) st.

Section SetRules.
Variable Netmask_of_string : string -> option Netmask.
Variable DNSName_of_string : string -> option DNSName.
(** Whether a [std::shared_ptr<DNSAction>] holds an action. *)
Variable has_action : Action -> bool.

(** The loop of [setRules] over the new entries. *)
Fixpoint push_each (newruleactions : LuaArray entry)
    (gruleactions : list entry) : result (list entry) :=
  match newruleactions with
  | [] => Ok gruleactions
  | pair_ :: rest =>
      let newruleaction := snd pair_ in
      if has_action (d_action newruleaction)
      then
        rule <- makeRule Netmask_of_string DNSName_of_string
                  (VarRule (d_rule newruleaction)) ;;
        push_each rest
          (Vec.push_back
             (mkRuleAction rule (d_action newruleaction)
                (d_name newruleaction) (d_id newruleaction)
                (d_creationOrder newruleaction)) gruleactions)
      else push_each rest gruleactions
  end.

Definition setRules (newruleactions : LuaArray entry) (st : state)
    : result state :=
  modify (fun _ => push_each newruleactions []) st.
End SetRules.

Section LuaTopRules.
Variable sort :
  (N * nat -> N * nat -> bool) -> list (N * nat) -> list (N * nat).

(** The Lua function [getTopRules], and its siblings on the other chains. *)
Definition lua_getTopRules (st : state) (top : option nat)
    : result (list entry) :=
  getTopRules sort (someRuleActions st) (get_value_or top 10).
End LuaTopRules.

(** The first string of an array that neither [Netmask] nor [DNSName]
    accepts. *)
Fixpoint first_refused (Netmask_of_string : string -> option Netmask)
    (DNSName_of_string : string -> option DNSName) (a : LuaArray string)
    : option string :=
  match a with
  | [] => None
  | e :: rest =>
      match Netmask_of_string (snd e), DNSName_of_string (snd e) with
      | None, None => Some (snd e)
      | _, _ => first_refused Netmask_of_string DNSName_of_string rest
      end
  end.
End MoreModel.

(** ** The properties of the listing *)

Section ListingProperties.
Context {Netmask DNSName Action : Type}.
Variable format : string -> list format_arg -> string.
Variable rule_toString : @DNSRule Netmask DNSName -> string.
Variable action_toString : Action -> string.
Variable uuid_to_string : uuid -> string.
Let entry : Type := @RuleAction Netmask DNSName Action.

(** A description as a listing shows it: its first [w] characters under a
    width [w] that is not negative, all of it under a negative width or
    none. *)
Definition shown (width : option Z) (s : string) : string :=
  match width with
  | Some w => if (0 <=? w)%Z then substring 0 (Z.to_nat w) s else s
  | None => s
  end.

(** The entries of a chain, each with its position. *)
Definition numbered (rules : list entry) : list (Z * entry) :=
  combine (map Z.of_nat (seq 0 (length rules))) rules.

Definition heading (showUUIDs : bool) : string :=
  if showUUIDs
  then format fmt_with_uuids
         [FmtString "#"; FmtString "Name"; FmtString "UUID";
          FmtString "Cr. Order"; FmtString "Matches"; FmtString "Rule";
          FmtString "Action"]
  else format fmt_plain
         [FmtString "#"; FmtString "Name"; FmtString "Matches";
          FmtString "Rule"; FmtString "Action"].

(** The row of the entry at position [fst p]. *)
Definition line (showUUIDs : bool) (width : option Z) (p : Z * entry)
    : string :=
  let desc := shown width (rule_toString (d_rule (snd p))) in
  if showUUIDs
  then format fmt_with_uuids
         [FmtInt (fst p); FmtString (d_name (snd p));
          FmtString (uuid_to_string (d_id (snd p)));
          FmtUInt (d_creationOrder (snd p));
          FmtUInt (d_matches (d_rule (snd p)));
          FmtString desc; FmtString (action_toString (d_action (snd p)))]
  else format fmt_plain
         [FmtInt (fst p); FmtString (d_name (snd p));
          FmtUInt (d_matches (d_rule (snd p)));
          FmtString desc; FmtString (action_toString (d_action (snd p)))].

(** The heading, then one row for each entry in the order of the chain. *)
Definition listing_of (showUUIDs : bool) (width : option Z)
    (rules : list entry) : string :=
  (heading showUUIDs ++
   fold_right String.append "" (map (line showUUIDs width) (numbered rules)))
  %string.

(** What the options of a listing say. *)
Definition says_showUUIDs (vars : option ruleparams_t) (b : bool) : Prop :=
  match vars with
  | Some v =>
      match v "showUUIDs"%string with
      | Some x => x = ParamBool b
      | None => b = false
      end
  | None => b = false
  end.

Definition says_width (vars : option ruleparams_t) (w : option Z) : Prop :=
  match vars with
  | Some v =>
      match v "truncateRuleWidth"%string with
      | Some x => exists i, x = ParamInt i /\ w = Some i
      | None => w = None
      end
  | None => w = None
  end.

(** [showUUIDs] is there and not a boolean, or [truncateRuleWidth] is
    there and not an integer. *)
Definition wrongly_typed (vars : option ruleparams_t) : Prop :=
  exists v x,
    vars = Some v /\
    ((v "showUUIDs"%string = Some x /\ forall b, x <> ParamBool b) \/
     (v "truncateRuleWidth"%string = Some x /\ forall i, x <> ParamInt i)).

(** Every description is shorter than 2^63 characters, and the chain
    shorter than 2^31 entries, which the [int] counting the rows can
    hold. *)
Definition listable (rules : list entry) : Prop :=
  Forall
    (fun lim =>
       (Z.of_nat (String.length (rule_toString (d_rule lim))) < 2 ^ 63)%Z)
    rules /\
  (Z.of_nat (length rules) < 2 ^ 31)%Z.
End ListingProperties.

(** More sample inputs. *)
Module SampleMore.
Import Sample.
Local Open Scope string_scope.

Definition no_params : luaruleparams_t := fun _ => None.

Definition named_params : luaruleparams_t :=
  fun k =>
    if String.eqb k "name" then Some "block-a"
    else if String.eqb k "uuid" then Some uuid_text
    else None.

Definition bad_uuid_params : luaruleparams_t :=
  fun k => if String.eqb k "uuid" then Some "not-a-uuid" else None.

Definition params_state : RuleParamsState := mkRuleParamsState 0%N "" 0%N 5%N.

Definition width_vars (w : Z) : ruleparams_t :=
  fun k => if String.eqb k "truncateRuleWidth" then Some (ParamInt w) else None.

Definition wrong_vars : ruleparams_t :=
  fun k => if String.eqb k "showUUIDs" then Some (ParamInt 1) else None.

(** An entry without an action, as a null pointer is written here. *)
Definition has_action (a : string) : bool := negb (String.eqb a "").
Definition no_action : entry :=
  mkRuleAction (Rule 0 AllRule) "" "broken" 46%N 4%N.
Definition new_rules : LuaArray entry :=
  [(1%Z, drop_a); (2%Z, no_action); (3%Z, allow_all)].

Definition too_long : string :=
  String.concat "" (repeat "aaaaaaaaaaaaaaaa" 17).
Definition with_bad_name : LuaArray string :=
  [(1%Z, "10.0.0.0/8"); (2%Z, too_long); (3%Z, "example.com")].

(** A [chartocode] that knows two type names. *)
Definition chartocode (s : string) : Z :=
  if String.eqb s "A" then 1%Z
  else if String.eqb s "AAAA" then 28%Z
  else 0%Z.

(** Decimal digits, and a [format] that writes its arguments one after the
    other, separated by blanks. *)
Fixpoint dec (fuel : nat) (n : N) : string :=
  match fuel with
  | 0 => ""
  | S fuel' =>
      let digit := String (ascii_of_N (48 + n mod 10)) "" in
      if (n <? 10)%N then digit else dec fuel' (n / 10) ++ digit
  end.

Definition arg_text (a : format_arg) : string :=
  match a with
  | FmtString s => s
  | FmtInt i => dec 20 (Z.to_N i)
  | FmtUInt n => dec 20 n
  end.

Definition format (f : string) (args : list format_arg) : string :=
  String.concat " " (map arg_text args) ++ LF.

Definition rule_toString (r : @DNSRule string string) : string :=
  match impl r with
  | AllRule => "All"
  | QTypeRule q => "qtype==" ++ dec 20 (Z.to_N q)
  | QClassRule c => "qclass==" ++ dec 20 (Z.to_N c)
  | _ => "rule"
  end.

Definition action_toString (a : string) : string := a.
Definition uuid_to_string (u : uuid) : string := dec 40 u.
End SampleMore.

(** A chain of seventeen rules that have not matched anything yet. *)
Module SampleTies.
Import Sample.
Local Open Scope string_scope.

Definition tied (i : nat) : entry :=
  mkRuleAction (Rule 0 AllRule) "Allow" "" (N.of_nat i) (N.of_nat i).

Definition tied17 : list entry := map tied (seq 0 17).

(** The positions in the order in which [std_sort] leaves seventeen pairs
    with the same count. *)
Definition scrambled : list nat :=
  [8; 16; 15; 14; 13; 12; 11; 10; 9; 0; 7; 6; 5; 4; 3; 2; 1].
End SampleTies.

(** * Proofs *)

(** ** Vectors *)

Section VecFacts.
Context {A : Type}.
Implicit Types (v : list A) (x : A).

Lemma erase_length v pos :
  pos < length v -> length (Vec.erase pos v) = length v - 1.
Proof.
  intros Hpos. unfold Vec.erase.
  rewrite length_app, length_firstn, length_skipn. lia.
Qed.

Lemma erase_last v x : Vec.erase (length v) (v ++ [x]) = v.
Proof.
  unfold Vec.erase.
  rewrite (skipn_all2 (n := S (length v))) by (rewrite length_app; simpl; lia).
  rewrite firstn_app, firstn_all, Nat.sub_diag. simpl.
  now rewrite !app_nil_r.
Qed.

Lemma insert_front v x : Vec.insert 0 x v = x :: v.
Proof. reflexivity. Qed.

Lemma insert_back v x : Vec.insert (length v) x v = Vec.push_back x v.
Proof.
  unfold Vec.insert, Vec.push_back.
  now rewrite firstn_all, skipn_all.
Qed.

Lemma insert_nth_error v x pos :
  pos <= length v -> nth_error (Vec.insert pos x v) pos = Some x.
Proof.
  intros Hpos. unfold Vec.insert.
  rewrite nth_error_app2 by (rewrite length_firstn; lia).
  rewrite length_firstn, Nat.min_l by lia.
  now rewrite Nat.sub_diag.
Qed.

Lemma insert_length v x pos : length (Vec.insert pos x v) = S (length v).
Proof.
  unfold Vec.insert.
  rewrite length_app. simpl. rewrite length_firstn, length_skipn. lia.
Qed.

(** Taking an element out and putting it back where it was. *)
Lemma insert_erase v x pos :
  nth_error v pos = Some x -> Vec.insert pos x (Vec.erase pos v) = v.
Proof.
  revert pos. induction v as [|y v IH]; intros [|pos] H; simpl in H;
    try discriminate.
  - injection H as ->. reflexivity.
  - unfold Vec.insert, Vec.erase in *. simpl. f_equal. now apply IH.
Qed.

Lemma filter_length_le (f : A -> bool) v : length (filter f v) <= length v.
Proof.
  induction v as [|y v IH]; simpl; [lia|]. destruct (f y); simpl; lia.
Qed.

Lemma filter_all (f : A -> bool) v :
  (forall a, In a v -> f a = true) -> filter f v = v.
Proof.
  induction v as [|y v IH]; intros H; simpl; [reflexivity|].
  rewrite (H y) by now left. f_equal. apply IH. intros a Ha.
  apply H. now right.
Qed.

Lemma filter_length_all (f : A -> bool) v :
  length (filter f v) = length v <-> forall a, In a v -> f a = true.
Proof.
  split.
  - induction v as [|y v IH]; intros H a Ha; [destruct Ha|].
    simpl in H. pose proof (filter_length_le f v) as Hle.
    destruct (f y) eqn:Hy; simpl in H; [|lia].
    destruct Ha as [<-|Ha]; [assumption|]. apply IH; [lia|assumption].
  - intros H. now rewrite filter_all.
Qed.

(** The erase-remove idiom keeps the elements that fail [pred], and the
    iterator it returns is their number. *)
Lemma erase_remove_if (pred : A -> bool) v :
  let '(moved, first) := Vec.remove_if pred v in
  Vec.erase_range first (Vec.end_ moved) moved =
  (filter (fun a => negb (pred a)) v,
   length (filter (fun a => negb (pred a)) v)).
Proof.
  unfold Vec.remove_if, Vec.erase_range, Vec.end_.
  set (kept := filter (fun a => negb (pred a)) v).
  rewrite firstn_app, firstn_all, Nat.sub_diag, skipn_all. simpl.
  now rewrite !app_nil_r.
Qed.
End VecFacts.

(** ** Removing and moving chain entries *)

Section ChainFacts.
Context {Netmask DNSName Action : Type}.
Abbreviation entry := (@RuleAction Netmask DNSName Action).
Abbreviation state := (@LuaState Netmask DNSName Action).
Implicit Types (st : state) (rules : list entry) (pred : entry -> bool).

(** What the not-found test of [rmRule] computes: with the left operand
    first the two iterators always coincide; with the right operand first
    they coincide when nothing was removed. *)
Lemma erase_remove_if_is_end_eq order pred rules :
  erase_remove_if_is_end order pred rules =
  (filter (fun a => negb (pred a)) rules,
   match order with
   | LeftOperandFirst => true
   | RightOperandFirst => negb (existsb pred rules)
   end).
Proof.
  unfold erase_remove_if_is_end.
  pose proof (erase_remove_if pred rules) as H.
  destruct (Vec.remove_if pred rules) as [moved first].
  rewrite H. destruct order; f_equal.
  - unfold Vec.end_. apply Nat.eqb_refl.
  - unfold Vec.end_. clear H.
    induction rules as [|a rules IH]; [reflexivity|]. simpl.
    destruct (pred a); simpl.
    + pose proof (filter_length_le (fun a => negb (pred a)) rules).
      apply Nat.eqb_neq. lia.
    + exact IH.
Qed.

Lemma existsb_false pred rules :
  (forall a, In a rules -> pred a = false) -> existsb pred rules = false.
Proof.
  intros H. induction rules as [|a rules IH]; [reflexivity|]. simpl.
  rewrite (H a) by now left. apply IH. intros b Hb. apply H. now right.
Qed.

Lemma filter_negb_none pred rules :
  (forall a, In a rules -> pred a = false) ->
  filter (fun a => negb (pred a)) rules = rules.
Proof.
  intros H. apply filter_all. intros a Ha. now rewrite (H a Ha).
Qed.

(** [rmRule] on a string, with the test of the erase-remove idiom
    evaluated. *)
Lemma rmRule_IdStr getUniqueID order st str :
  rmRule getUniqueID order st (IdStr str) =
  if match order with
     | LeftOperandFirst => true
     | RightOperandFirst =>
         negb (existsb (matching getUniqueID str) (someRuleActions st))
     end
  then setOutput ("Error: no rule matched" ++ LF)%string st
  else setState
         (filter (fun a => negb (matching getUniqueID str a))
            (someRuleActions st)) st.
Proof.
  unfold rmRule, matching, getCopy.
  destruct (getUniqueID str) as [u|];
    rewrite erase_remove_if_is_end_eq; reflexivity.
Qed.

(** With the left operand first, [rmRule] never removes by id or name. *)
Lemma rmRule_left_operand_first getUniqueID st str :
  rmRule getUniqueID LeftOperandFirst st (IdStr str) =
  setOutput ("Error: no rule matched" ++ LF)%string st.
Proof. now rewrite rmRule_IdStr. Qed.

(** Removal by position. *)
Lemma rmRule_IdPos getUniqueID order st pos :
  rmRule getUniqueID order st (IdPos pos) =
  if length (someRuleActions st) <=? pos
  then setOutput ("Error: attempt to delete non-existing rule" ++ LF)%string st
  else setState (Vec.erase pos (someRuleActions st)) st.
Proof. reflexivity. Qed.

(** C3 (as amended): given a string, [rmRule] looks for the entries whose
    id is the parsed UUID when the string parses as one, and for the
    entries whose name is the string otherwise.  Whatever the order of
    evaluation, it either reports an error or publishes the chain without
    every such entry; when the end of the vector is read before the entries
    are erased and some entry matches, it publishes the chain without
    every matching entry (all of them, not only the first) and writes no
    message. *)
Theorem rmRule_removes_every_match getUniqueID st str :
  existsb (matching getUniqueID str) (someRuleActions st) = true ->
  let kept :=
    filter (fun a => negb (matching getUniqueID str a)) (someRuleActions st)
  in
  rmRule getUniqueID RightOperandFirst st (IdStr str) = setState kept st /\
  (forall a, In a kept <->
             In a (someRuleActions st) /\ matching getUniqueID str a = false) /\
  (forall u, getUniqueID str = Some u ->
             forall a : entry,
             matching getUniqueID str a = N.eqb (d_id a) u) /\
  (getUniqueID str = None ->
   forall a : entry,
   matching getUniqueID str a = String.eqb (d_name a) str) /\
  (forall order,
      rmRule getUniqueID order st (IdStr str) = setState kept st \/
      rmRule getUniqueID order st (IdStr str) =
      setOutput ("Error: no rule matched" ++ LF)%string st).
Proof.
  intros Hex kept. repeat split.
  - rewrite rmRule_IdStr, Hex. reflexivity.
  - unfold kept in H. apply filter_In in H. tauto.
  - unfold kept in H. apply filter_In in H.
    destruct H as [_ H]. now apply negb_true_iff in H.
  - intros [Hin Hm]. apply filter_In. now rewrite Hm.
  - intros u Hu a. unfold matching. now rewrite Hu.
  - intros Hu a. unfold matching. now rewrite Hu.
  - intros order. rewrite rmRule_IdStr. destruct order; [now right|].
    rewrite Hex. now left.
Qed.

(** C4: [rmRule] with a well-formed UUID that is the id of no entry, or
    with a string that is not a UUID and is the name of no entry, writes
    the error message and leaves the chain as it was, whatever the order
    of evaluation. *)
Theorem rmRule_unknown_NotFound getUniqueID order st str :
  (forall u, getUniqueID str = Some u ->
             forall a, In a (someRuleActions st) -> d_id a <> u) ->
  (getUniqueID str = None ->
   forall a, In a (someRuleActions st) -> d_name a <> str) ->
  rmRule getUniqueID order st (IdStr str) =
    setOutput ("Error: no rule matched" ++ LF)%string st /\
  g_outputBuffer (rmRule getUniqueID order st (IdStr str)) =
    ("Error: no rule matched" ++ LF)%string /\
  someRuleActions (rmRule getUniqueID order st (IdStr str)) =
    someRuleActions st.
Proof.
  intros Hid Hname.
  assert (Hnone : existsb (matching getUniqueID str) (someRuleActions st)
                  = false).
  { apply existsb_false. intros a Ha. unfold matching.
    destruct (getUniqueID str) as [u|] eqn:Hu.
    - apply N.eqb_neq. now apply (Hid u).
    - apply String.eqb_neq. now apply Hname. }
  rewrite rmRule_IdStr, Hnone.
  destruct order; simpl; repeat split.
Qed.

(** C7: on a non-empty chain [moveRuleToTop] takes the last entry out and
    puts it in front of the others; on an empty chain it does nothing. *)
Theorem moveRuleToTop_rotates (l : list entry) (e : entry) (out : string) :
  moveRuleToTop (mkLuaState (l ++ [e]) out) = mkLuaState (e :: l) out /\
  moveRuleToTop (mkLuaState (@nil entry) out) = mkLuaState [] out.
Proof.
  split; [|reflexivity].
  unfold moveRuleToTop, getCopy, setState. simpl.
  destruct (l ++ [e]) as [|x l'] eqn:Hl.
  - now destruct l.
  - rewrite <- Hl.
    replace (length (l ++ [e]) - 1) with (length l)
      by (rewrite length_app; simpl; lia).
    rewrite nth_error_app2, Nat.sub_diag by lia. simpl.
    now rewrite erase_last.
Qed.

(** C5: [mvRule] refuses a [from] that is not a position of the chain and
    a [to] beyond its end, leaving the chain as it was.  Otherwise it
    takes the entry at [from] out and puts it back at [to - 1] when
    [from < to] and at [to] when not, which is where the entry then is;
    [mvRule] from a position to itself leaves the chain as it was. *)
Theorem mvRule_moves st from to :
  let rules := someRuleActions st in
  let st' := mvRule st from to in
  (length rules <= from \/ length rules < to ->
   st' = setOutput
           ("Error: attempt to move rules from/to invalid index" ++ LF)%string
           st /\
   someRuleActions st' = rules) /\
  (from < length rules -> to <= length rules ->
   exists subject,
     nth_error rules from = Some subject /\
     let target := if from <? to then to - 1 else to in
     st' = setState (Vec.insert target subject (Vec.erase from rules)) st /\
     nth_error (someRuleActions st') target = Some subject /\
     length (someRuleActions st') = length rules) /\
  (from = to -> someRuleActions st' = rules).
Proof.
  intros rules st'.
  assert (Herr : length rules <= from \/ length rules < to ->
                 st' = setOutput
                         ("Error: attempt to move rules from/to invalid index"
                            ++ LF)%string st).
  { intros H. unfold st', mvRule, getCopy. fold rules.
    destruct H as [H|H].
    - apply Nat.leb_le in H. now rewrite H.
    - apply Nat.ltb_lt in H. now rewrite H, orb_true_r. }
  assert (Hok : from < length rules -> to <= length rules ->
                exists subject,
                  nth_error rules from = Some subject /\
                  st' = setState
                          (Vec.insert (if from <? to then to - 1 else to)
                             subject (Vec.erase from rules)) st).
  { intros Hfrom Hto.
    destruct (nth_error rules from) as [subject|] eqn:Hnth.
    2: { apply nth_error_None in Hnth. lia. }
    exists subject. split; [reflexivity|].
    unfold st', mvRule, getCopy. fold rules. rewrite Hnth.
    replace (length rules <=? from) with false
      by (symmetry; apply Nat.leb_gt; lia).
    replace (length rules <? to) with false
      by (symmetry; apply Nat.ltb_ge; lia).
    simpl. rewrite erase_length by assumption.
    destruct (length rules - 1 <? to) eqn:Hlast.
    - apply Nat.ltb_lt in Hlast.
      replace (from <? to) with true by (symmetry; apply Nat.ltb_lt; lia).
      replace (to - 1) with (length (Vec.erase from rules))
        by (rewrite erase_length; lia).
      now rewrite insert_back.
    - reflexivity. }
  split; [|split].
  - intros H. rewrite (Herr H). split; reflexivity.
  - intros Hfrom Hto. destruct (Hok Hfrom Hto) as (subject & Hnth & Hst').
    exists subject. split; [assumption|]. simpl. split; [assumption|].
    rewrite Hst'. simpl. split.
    + apply insert_nth_error. rewrite erase_length by assumption.
      destruct (from <? to) eqn:Hlt; [|apply Nat.ltb_ge in Hlt]; lia.
    + rewrite insert_length, erase_length by assumption. lia.
  - intros <-. destruct (Nat.lt_ge_cases from (length rules)) as [Hlt|Hge].
    + destruct (Hok Hlt (Nat.lt_le_incl _ _ Hlt)) as (subject & Hnth & Hst').
      rewrite Hst', Nat.ltb_irrefl. simpl. now apply insert_erase.
    + rewrite Herr by now left. reflexivity.
Qed.
End ChainFacts.

(** ** Sorting *)

Lemma comp_false (a b : N * nat) :
  comp b a = false <-> (fst b <= fst a)%N.
Proof. unfold comp. apply N.ltb_ge. Qed.

Section SortFacts.
Context {A : Type}.
Implicit Types (R : A -> A -> Prop) (l : list A).

Lemma In_firstn n l (x : A) : In x (firstn n l) -> In x l.
Proof.
  intros H. rewrite <- (firstn_skipn n l). apply in_or_app. now left.
Qed.

Lemma StronglySorted_firstn R n l :
  StronglySorted R l -> StronglySorted R (firstn n l).
Proof.
  intros H. revert n. induction H as [|a l Hl IH Ha]; intros [|n]; simpl;
    try constructor.
  - apply IH.
  - rewrite Forall_forall in *. intros x Hx. apply Ha.
    eapply In_firstn; eassumption.
Qed.

Lemma StronglySorted_filter R (f : A -> bool) l :
  StronglySorted R l -> StronglySorted R (filter f l).
Proof.
  induction 1 as [|a l Hl IH Ha]; simpl; [constructor|].
  destruct (f a); [|assumption]. constructor; [assumption|].
  rewrite Forall_forall in *. intros x Hx. apply Ha.
  now apply filter_In in Hx.
Qed.

Lemma insert_when_perm (stop : A -> A -> bool) x l :
  Permutation (insert_when stop x l) (x :: l).
Proof.
  induction l as [|y l IH]; simpl; [reflexivity|].
  destruct (stop x y); [reflexivity|].
  rewrite IH. apply perm_swap.
Qed.

Lemma insertion_sort_perm (stop : A -> A -> bool) l :
  Permutation (insertion_sort stop l) l.
Proof.
  induction l as [|x l IH]; simpl; [reflexivity|].
  rewrite insert_when_perm. now constructor.
Qed.

(** Insertion keeps a list sorted when [x] stops only in front of what may
    follow it and passes only what may precede it. *)
Lemma insert_when_sorted R (stop : A -> A -> bool) x l :
  (forall a b c, R a b -> R b c -> R a c) ->
  (forall y, stop x y = true -> R x y) ->
  (forall y, stop x y = false -> R y x) ->
  StronglySorted R l -> StronglySorted R (insert_when stop x l).
Proof.
  intros Htrans Hstop Hpass. induction 1 as [|y l Hl IH Hy]; simpl.
  - repeat constructor.
  - destruct (stop x y) eqn:Hxy.
    + constructor; [now constructor|]. constructor; [now apply Hstop|].
      rewrite Forall_forall in *. intros z Hz.
      apply Htrans with y; [now apply Hstop | now apply Hy].
    + constructor; [assumption|].
      rewrite Forall_forall in *. intros z Hz.
      apply (Permutation_in _ (insert_when_perm stop x l)) in Hz.
      destruct Hz as [<-|Hz]; [now apply Hpass | now apply Hy].
Qed.
End SortFacts.

Lemma comp_trans (a b c : N * nat) :
  comp b a = false -> comp c b = false -> comp c a = false.
Proof. rewrite !comp_false. lia. Qed.

Lemma sort_ties_kept_spec : std_sort_spec sort_ties_kept.
Proof.
  intros l. split; [apply insertion_sort_perm|].
  unfold sort_ties_kept. induction l as [|x l IH]; simpl; [constructor|].
  apply insert_when_sorted; try assumption.
  - intros a b c. apply comp_trans.
  - intros y H. now apply negb_true_iff in H.
  - intros y H. apply negb_false_iff in H. unfold comp in *.
    apply N.ltb_lt in H. apply N.ltb_ge. lia.
Qed.

Lemma sort_ties_reversed_spec : std_sort_spec sort_ties_reversed.
Proof.
  intros l. split; [apply insertion_sort_perm|].
  unfold sort_ties_reversed. induction l as [|x l IH]; simpl; [constructor|].
  apply insert_when_sorted; try assumption.
  - intros a b c. apply comp_trans.
  - intros y H. unfold comp in *.
    apply N.ltb_lt in H. apply N.ltb_ge. lia.
  - intros y H. exact H.
Qed.

(** [sort_ties_kept] is stable: an inserted pair passes only pairs with a
    greater count. *)
Lemma sort_ties_kept_stable : stable sort_ties_kept.
Proof.
  intros l k. unfold sort_ties_kept.
  induction l as [|x l IH]; [reflexivity|].
  cbn [insertion_sort]. cbn [filter]. rewrite <- IH.
  generalize (insertion_sort (fun x y => negb (comp y x)) l) as s.
  clear IH. induction s as [|y s IHs]; [reflexivity|].
  cbn [insert_when]. destruct (negb (comp y x)) eqn:Hyx; [reflexivity|].
  apply negb_false_iff in Hyx. unfold comp in Hyx. apply N.ltb_lt in Hyx.
  cbn [filter]. rewrite IHs.
  destruct (fst y =? k)%N eqn:Hy; [|reflexivity].
  apply N.eqb_eq in Hy.
  replace (fst x =? k)%N with false; [reflexivity|].
  symmetry. apply N.eqb_neq. lia.
Qed.

(** ** getTopRules *)

Section TopRulesFacts.
Context {Netmask DNSName Action : Type}.
Abbreviation entry := (@RuleAction Netmask DNSName Action).
Implicit Types (rules res : list entry) (sel counts : list (N * nat)).

Lemma count_rules_eq rules pos counts :
  count_rules rules pos counts =
  counts ++ combine (map (fun r => d_matches (d_rule r)) rules)
              (seq pos (length rules)).
Proof.
  revert pos counts. induction rules as [|r rules IH]; intros pos counts; simpl.
  - now rewrite app_nil_r.
  - rewrite IH. unfold Vec.push_back. now rewrite <- app_assoc.
Qed.

Lemma counts_selects_from (pre suf : list entry) :
  Forall2 (selects (pre ++ suf))
    (combine (map (fun r => d_matches (d_rule r)) suf)
       (seq (length pre) (length suf))) suf.
Proof.
  revert pre. induction suf as [|r suf IH]; intros pre; simpl; constructor.
  - split; simpl; [|reflexivity].
    now rewrite nth_error_app2, Nat.sub_diag by lia.
  - specialize (IH (pre ++ [r])).
    rewrite <- app_assoc, length_app, Nat.add_1_r in IH. exact IH.
Qed.

Lemma counts_selects rules : Forall2 (selects rules) (counts_of rules) rules.
Proof. exact (counts_selects_from [] rules). Qed.

Lemma counts_positions_increase (ms : list N) pos n :
  StronglySorted (fun a b : N * nat => snd a < snd b)
    (combine ms (seq pos n)).
Proof.
  revert pos n. induction ms as [|m ms IH]; intros pos [|n]; simpl;
    try constructor.
  - apply IH.
  - apply Forall_forall. intros [c p] Hin. apply in_combine_r in Hin.
    apply in_seq in Hin. simpl. lia.
Qed.

Lemma Forall2_firstn {X Y : Type} (P : X -> Y -> Prop) n
    (l1 : list X) (l2 : list Y) :
  Forall2 P l1 l2 -> Forall2 P (firstn n l1) (firstn n l2).
Proof.
  intros H. revert n. induction H; intros [|n]; simpl; constructor; auto.
Qed.

Lemma StronglySorted_Forall2 {X Y : Type} (P : X -> Y -> Prop)
    (R1 : X -> X -> Prop) (R2 : Y -> Y -> Prop) l1 l2 :
  (forall a b x y, P a x -> P b y -> R1 a b -> R2 x y) ->
  Forall2 P l1 l2 -> StronglySorted R1 l1 -> StronglySorted R2 l2.
Proof.
  intros HR H. induction H as [|a x l1 l2 Hax Hl IH]; intros Hs;
    [constructor|].
  apply StronglySorted_inv in Hs. destruct Hs as [Hs Ha].
  constructor; [now apply IH|].
  clear IH Hs. induction Hl as [|b y l1 l2 Hby Hl IH]; constructor.
  - apply (HR a b); [assumption..|]. now inversion Ha.
  - apply IH. now inversion Ha.
Qed.

(** The second loop returns the rules of the first pairs: those up to the
    one at which the counter reaches [top], all of them if it never does. *)
Lemma collect_ok rules top sel res count results :
  Forall2 (selects rules) sel res ->
  collect rules top sel count results =
  Ok (results ++ firstn (if count <? top then top - count else length res) res).
Proof.
  intros H. revert count results.
  induction H as [|e r sel res [Hnth _] _ IH]; intros count results.
  - simpl. now destruct (count <? top); rewrite ?firstn_nil, app_nil_r.
  - cbn [collect]. rewrite Hnth. unfold Vec.push_back.
    destruct (S count =? top) eqn:Htop.
    + apply Nat.eqb_eq in Htop. subst top.
      rewrite (proj2 (Nat.ltb_lt count (S count))) by lia.
      replace (S count - count) with 1 by lia. reflexivity.
    + apply Nat.eqb_neq in Htop. rewrite IH, <- app_assoc. do 2 f_equal.
      destruct (count <? top) eqn:Hlt.
      * apply Nat.ltb_lt in Hlt.
        rewrite (proj2 (Nat.ltb_lt (S count) top)) by lia.
        replace (top - count) with (S (top - S count)) by lia. reflexivity.
      * apply Nat.ltb_ge in Hlt.
        rewrite (proj2 (Nat.ltb_ge (S count) top)) by lia. reflexivity.
Qed.

(** [getTopRules] returns a prefix of the rules in the order [sort] gives
    to their pairs: [top] of them, all of them when [top] is zero. *)
Lemma getTopRules_firstn sort rules top :
  (forall l, Permutation (sort comp l) l) ->
  exists res,
    Forall2 (selects rules) (sort comp (counts_of rules)) res /\
    Permutation res rules /\
    getTopRules sort rules top =
    Ok (firstn (if 0 <? top then top else length rules) res).
Proof.
  intros Hperm.
  destruct (Permutation_Forall2 (Permutation_sym (Hperm (counts_of rules)))
              (counts_selects rules)) as (res & Hres & Hsel).
  exists res. split; [assumption|]. split; [now symmetry|].
  unfold getTopRules. rewrite count_rules_eq. simpl. fold (counts_of rules).
  rewrite (collect_ok _ _ _ _ _ _ Hsel). simpl.
  rewrite Nat.sub_0_r, (Permutation_length Hres). reflexivity.
Qed.

(** C1: with [top] zero the counter of the second loop never equals [top],
    so [getTopRules] returns every entry of the chain, just as it does when
    [top] is at least the length of the chain; the result is empty only
    for the empty chain. *)
Theorem getTopRules_zero_returns_all sort rules :
  std_sort_spec sort ->
  exists res,
    getTopRules sort rules 0 = Ok res /\
    Permutation res rules /\
    length res = length rules /\
    (rules <> [] -> res <> []) /\
    (forall top, length rules <= top -> getTopRules sort rules top = Ok res).
Proof.
  intros Hsort.
  assert (Hperm : forall l, Permutation (sort comp l) l)
    by (intros l; apply Hsort).
  destruct (getTopRules_firstn sort rules 0 Hperm) as (res & Hsel & Hres & H0).
  pose proof (Permutation_length Hres) as Hlen.
  simpl in H0. rewrite firstn_all2 in H0 by lia.
  exists res. repeat split; try assumption.
  - intros Hne ->. now destruct rules.
  - intros top Htop.
    destruct (getTopRules_firstn sort rules top Hperm)
      as (res' & Hsel' & Hres' & Htop').
    assert (res' = res) as ->.
    { clear - Hsel Hsel'. revert res' Hsel'.
      induction Hsel as [|e r sel res [Hn _] _ IH]; intros res' H';
        inversion H' as [|e' r' sel' res'' [Hn' _] Hrest]; subst;
        [reflexivity|].
      f_equal; [congruence | now apply IH]. }
    rewrite Htop'. f_equal. apply firstn_all2.
    destruct (0 <? top); lia.
Qed.

Lemma ties_of_classes sel :
  (forall k, StronglySorted (fun a b : N * nat => snd a < snd b)
               (filter (fun e => (fst e =? k)%N) sel)) ->
  StronglySorted (fun a b : N * nat => fst a = fst b -> snd a < snd b) sel.
Proof.
  induction sel as [|a sel IH]; intros H; constructor.
  - apply IH. intros k. specialize (H k). simpl in H.
    destruct (fst a =? k)%N; [now inversion H | assumption].
  - specialize (H (fst a)). simpl in H. rewrite N.eqb_refl in H.
    apply StronglySorted_inv in H. destruct H as [_ H].
    rewrite Forall_forall in *. intros b Hb Hab. apply H.
    apply filter_In. split; [assumption|]. apply N.eqb_eq. now symmetry.
Qed.

(** Under a stable sort the pairs with equal counts stay in the order of
    their positions. *)
Lemma stable_ties sort rules :
  stable sort ->
  StronglySorted (fun a b : N * nat => fst a = fst b -> snd a < snd b)
    (sort comp (counts_of rules)).
Proof.
  intros Hstable. apply ties_of_classes. intros k. rewrite Hstable.
  apply StronglySorted_filter. apply counts_positions_increase.
Qed.

(** C2 (as amended): for every [top], [getTopRules] returns its entries
    sorted by match count, descending.  Entries with equal match counts
    appear in the order of their positions in the chain when the sort is
    stable, which [std::sort] does not promise. *)
Theorem getTopRules_descending sort rules top :
  std_sort_spec sort ->
  exists res,
    getTopRules sort rules top = Ok res /\
    descending res /\
    (stable sort -> ties_by_position rules res).
Proof.
  intros Hsort.
  assert (Hperm : forall l, Permutation (sort comp l) l)
    by (intros l; apply Hsort).
  destruct (getTopRules_firstn sort rules top Hperm)
    as (res & Hsel & Hres & Htop).
  set (n := if 0 <? top then top else length rules) in Htop.
  exists (firstn n res). split; [assumption|]. split.
  - apply (StronglySorted_Forall2 (selects rules)
             (fun a b => comp b a = false) _
             (firstn n (sort comp (counts_of rules)))).
    + intros a b x y [_ Ha] [_ Hb] Hab. apply comp_false in Hab.
      now rewrite <- Ha, <- Hb.
    + now apply Forall2_firstn.
    + apply StronglySorted_firstn. apply Hsort.
  - intros Hstable. exists (firstn n (sort comp (counts_of rules))).
    split; [now apply Forall2_firstn|].
    apply StronglySorted_firstn. now apply stable_ties.
Qed.
End TopRulesFacts.

(** ** makeRule *)

Section MakeRuleFacts.
Context {Netmask DNSName Action : Type}.
Variable Netmask_of_string : string -> option Netmask.
Variable DNSName_of_string : string -> option DNSName.
Abbreviation rule := (@DNSRule Netmask DNSName).
Abbreviation masks := (masks_of Netmask_of_string).
Abbreviation suffixes := (suffixes_of Netmask_of_string DNSName_of_string).
Abbreviation make := (makeRule Netmask_of_string DNSName_of_string).

Lemma add_each_ok (a : LuaArray string) smn nmg :
  suffix_or_mask Netmask_of_string DNSName_of_string a ->
  add_each Netmask_of_string DNSName_of_string a (smn, nmg) =
  Ok (smn ++ suffixes a, nmg ++ masks a).
Proof.
  revert smn nmg. induction a as [|e a IH]; intros smn nmg Hwf.
  - simpl. now rewrite !app_nil_r.
  - assert (Hrest : suffix_or_mask Netmask_of_string DNSName_of_string a)
      by (intros e' He'; apply Hwf; now right).
    pose proof (Hwf e (or_introl eq_refl)) as He.
    cbn [add_each add masks_of suffixes_of flat_map bind].
    destruct (Netmask_of_string (snd e)) as [mask|].
    + cbn [bind]. rewrite (IH _ _ Hrest). unfold masks_of, suffixes_of.
      now rewrite <- app_assoc.
    + destruct (DNSName_of_string (snd e)) as [name|]; [|now destruct He].
      cbn [bind]. rewrite (IH _ _ Hrest). unfold masks_of, suffixes_of.
      now rewrite <- app_assoc.
Qed.

(** A string accepted by neither constructor makes [makeRule] throw. *)
Lemma add_each_malformed (a : LuaArray string) smn nmg :
  ~ suffix_or_mask Netmask_of_string DNSName_of_string a ->
  (forall e : Z * string, In e a ->
     {DNSName_of_string (snd e) = None} + {DNSName_of_string (snd e) <> None}) ->
  exists src,
    add_each Netmask_of_string DNSName_of_string a (smn, nmg) =
    Err (MalformedPattern src).
Proof.
  revert smn nmg. induction a as [|e a IH]; intros smn nmg Hnot Hdec.
  - exfalso. apply Hnot. intros e [].
  - cbn [add_each add]. destruct (Netmask_of_string (snd e)) as [mask|] eqn:Hm.
    + cbn [bind]. apply IH.
      * intros Hwf. apply Hnot. intros e' [<-|He'] Hnone;
          [congruence | now apply Hwf].
      * intros e' He'. apply Hdec. now right.
    + destruct (DNSName_of_string (snd e)) as [name|] eqn:Hn.
      * cbn [bind]. apply IH.
        -- intros Hwf. apply Hnot. intros e' [<-|He'] Hnone;
             [congruence | now apply Hwf].
        -- intros e' He'. apply Hdec. now right.
      * now exists (snd e).
Qed.

End MakeRuleFacts.

(** ** The rule constructors *)

Lemma checkParameterBound_in parameter value max :
  (value <= max)%Z -> checkParameterBound parameter value max = Ok tt.
Proof.
  intros H. unfold checkParameterBound.
  now rewrite (proj2 (Z.ltb_ge max value)).
Qed.

Lemma checkParameterBound_out parameter value max :
  (max < value)%Z ->
  checkParameterBound parameter value max =
  Err (ParameterOutOfRange parameter value max).
Proof.
  intros H. unfold checkParameterBound.
  now rewrite (proj2 (Z.ltb_lt max value)).
Qed.

Lemma to_uint8_small v : (0 <= v <= uint8_max)%Z -> to_uint8 v = v.
Proof. unfold to_uint8, uint8_max. intros H. apply Z.mod_small. lia. Qed.

Lemma to_uint16_small v : (0 <= v <= uint16_max)%Z -> to_uint16 v = v.
Proof. unfold to_uint16, uint16_max. intros H. apply Z.mod_small. lia. Qed.

Lemma to_uint_small v : (0 <= v <= uint_max)%Z -> to_uint v = v.
Proof. unfold to_uint, uint_max. intros H. apply Z.mod_small. lia. Qed.

Section ConstructorFacts.
Context {Netmask DNSName : Type}.
Abbreviation rule := (@DNSRule Netmask DNSName).
Abbreviation ok := (@Ok rule).
Abbreviation err := (@Err rule).

Ltac in_range :=
  repeat (rewrite checkParameterBound_in by lia; cbn [bind]);
  rewrite ?to_uint8_small, ?to_uint16_small, ?to_uint_small by lia;
  reflexivity.

Ltac out_of_range :=
  repeat (rewrite checkParameterBound_in by lia; cbn [bind]);
  rewrite checkParameterBound_out by lia; reflexivity.

(** The constructors of rules on an 8-bit field accept 0 to 255 and refuse
    anything greater. *)
Lemma uint8_constructors (v : Z) :
  (0 <= v)%Z ->
  ((v <= uint8_max)%Z ->
   lua_OpcodeRule v = ok (new (OpcodeRule v)) /\
   lua_RCodeRule v = ok (new (RCodeRule v)) /\
   lua_ERCodeRule v = ok (new (ERCodeRule v)) /\
   lua_EDNSVersionRule v = ok (new (EDNSVersionRule v))) /\
  ((uint8_max < v)%Z ->
   lua_OpcodeRule v = err (ParameterOutOfRange "OpcodeRule" v 255) /\
   lua_RCodeRule v = err (ParameterOutOfRange "RCodeRule" v 255) /\
   lua_ERCodeRule v = err (ParameterOutOfRange "ERCodeRule" v 255) /\
   lua_EDNSVersionRule v = err (ParameterOutOfRange "EDNSVersionRule" v 255)).
Proof.
  intros H0. split; intros H.
  - unfold lua_OpcodeRule, lua_RCodeRule, lua_ERCodeRule, lua_EDNSVersionRule.
    repeat split; in_range.
  - unfold lua_OpcodeRule, lua_RCodeRule, lua_ERCodeRule, lua_EDNSVersionRule.
    repeat split; out_of_range.
Qed.

(** The constructors of rules on a 16-bit field accept 0 to 65535 and
    refuse anything greater. *)
Lemma uint16_constructors (v : Z) :
  (0 <= v)%Z ->
  ((v <= uint16_max)%Z ->
   lua_QClassRule v = ok (new (QClassRule v)) /\
   lua_DSTPortRule v = ok (new (DSTPortRule v)) /\
   lua_EDNSOptionRule v = ok (new (EDNSOptionRule v))) /\
  ((uint16_max < v)%Z ->
   lua_QClassRule v = err (ParameterOutOfRange "QClassRule" v 65535) /\
   lua_DSTPortRule v = err (ParameterOutOfRange "DSTPortRule" v 65535) /\
   lua_EDNSOptionRule v = err (ParameterOutOfRange "EDNSOptionRule" v 65535)).
Proof.
  intros H0. split; intros H.
  - unfold lua_QClassRule, lua_DSTPortRule, lua_EDNSOptionRule.
    repeat split; in_range.
  - unfold lua_QClassRule, lua_DSTPortRule, lua_EDNSOptionRule.
    repeat split; out_of_range.
Qed.

(** [RecordsCountRule] checks its section against 8 bits and its two counts
    against 16 bits, in that order. *)
Lemma RecordsCountRule_range (section minCount maxCount : Z) :
  (0 <= section)%Z -> (0 <= minCount)%Z -> (0 <= maxCount)%Z ->
  ((section <= uint8_max)%Z -> (minCount <= uint16_max)%Z ->
   (maxCount <= uint16_max)%Z ->
   lua_RecordsCountRule section minCount maxCount =
   ok (new (RecordsCountRule section minCount maxCount))) /\
  ((uint8_max < section)%Z \/ (uint16_max < minCount)%Z \/
   (uint16_max < maxCount)%Z ->
   exists value max,
     lua_RecordsCountRule section minCount maxCount =
     err (ParameterOutOfRange "RecordsCountRule" value max) /\
     (max < value)%Z).
Proof.
  intros Hs Hmin Hmax. unfold lua_RecordsCountRule. split.
  - intros. in_range.
  - intros H.
    destruct (Z.le_gt_cases section uint8_max) as [Hs'|Hs'].
    2: { exists section, uint8_max. split; [out_of_range | lia]. }
    destruct (Z.le_gt_cases minCount uint16_max) as [Hmin'|Hmin'].
    2: { exists minCount, uint16_max. split; [out_of_range | lia]. }
    exists maxCount, uint16_max. split; [out_of_range | lia].
Qed.

(** [RecordsTypeCountRule] and [QNameLabelsCountRule] check every argument
    as well, the latter against 32 bits. *)
Lemma RecordsTypeCountRule_range (section type minCount maxCount : Z) :
  (0 <= section <= uint8_max)%Z -> (0 <= type <= uint16_max)%Z ->
  (0 <= minCount <= uint16_max)%Z -> (0 <= maxCount <= uint16_max)%Z ->
  lua_RecordsTypeCountRule section type minCount maxCount =
  ok (new (RecordsTypeCountRule section type minCount maxCount)).
Proof. intros. unfold lua_RecordsTypeCountRule. in_range. Qed.

Lemma QNameLabelsCountRule_range (minLabelsCount maxLabelsCount : Z) :
  (0 <= minLabelsCount <= uint_max)%Z -> (0 <= maxLabelsCount <= uint_max)%Z ->
  lua_QNameLabelsCountRule minLabelsCount maxLabelsCount =
  ok (new (QNameLabelsCountRule minLabelsCount maxLabelsCount)).
Proof. intros. unfold lua_QNameLabelsCountRule. in_range. Qed.

(** C8: [QTypeRule] is given 65537, which does not fit the 16 bits of a
    query type, and it builds the rule for type 1 all the same; [QClassRule],
    on a field of the same width, refuses that value. *)
Theorem lua_QTypeRule_unchecked (chartocode : string -> Z) :
  lua_QTypeRule chartocode (QTypeNum 65537) = ok (new (QTypeRule 1)) /\
  lua_QClassRule 65537 = err (ParameterOutOfRange "QClassRule" 65537 65535).
Proof. split; reflexivity. Qed.

(** C9: [MaxQPSIPRule] hands its rate to the rule as it is; an omitted
    burst is the rate, an omitted IPv4 prefix length 32, IPv6 prefix length
    64, expiration 300, cleanup delay 60 and scan fraction 10; a parameter
    that is given is handed over unchanged. *)
Theorem lua_MaxQPSIPRule_defaults (qps : Z)
    (ipv4trunc ipv6trunc burst expiration cleanupDelay scanFraction
      : option Z) :
  exists params,
    lua_MaxQPSIPRule qps ipv4trunc ipv6trunc burst expiration cleanupDelay
      scanFraction = (new (MaxQPSIPRule params) : rule) /\
    d_qps params = qps /\
    d_burst params = match burst with Some v => v | None => qps end /\
    d_ipv4trunc params = match ipv4trunc with Some v => v | None => 32%Z end /\
    d_ipv6trunc params = match ipv6trunc with Some v => v | None => 64%Z end /\
    d_expiration params =
      match expiration with Some v => v | None => 300%Z end /\
    d_cleanupDelay params =
      match cleanupDelay with Some v => v | None => 60%Z end /\
    d_scanFraction params =
      match scanFraction with Some v => v | None => 10%Z end.
Proof. eexists. split; [reflexivity|]. repeat split. Qed.

(** C10: [QTypeRule] takes any [unsigned int] and keeps its low 16 bits
    without a check: the rule it builds is the one for the argument modulo
    65536, the same as for that in-range value, also when the argument is
    above 65535, where the constructors of the other 16-bit rules throw. *)
Theorem lua_QTypeRule_narrows (chartocode : string -> Z) (dir : Z) :
  (0 <= dir <= uint_max)%Z ->
  lua_QTypeRule chartocode (QTypeNum dir) =
    ok (new (QTypeRule (dir mod 65536))) /\
  (0 <= dir mod 65536 <= uint16_max)%Z /\
  (lua_QTypeRule chartocode (QTypeNum dir) : result rule) =
    lua_QTypeRule chartocode (QTypeNum (dir mod 65536)) /\
  ((uint16_max < dir)%Z ->
   lua_QClassRule dir = err (ParameterOutOfRange "QClassRule" dir 65535) /\
   lua_DSTPortRule dir = err (ParameterOutOfRange "DSTPortRule" dir 65535) /\
   lua_EDNSOptionRule dir =
     err (ParameterOutOfRange "EDNSOptionRule" dir 65535)).
Proof.
  intros Hdir. repeat split.
  - apply Z.mod_pos_bound. lia.
  - pose proof (Z.mod_pos_bound dir 65536). unfold uint16_max. lia.
  - unfold lua_QTypeRule, to_uint16. change (2 ^ 16)%Z with 65536%Z.
    now rewrite Z.mod_mod by lia.
  - now apply uint16_constructors; [lia|].
  - now apply uint16_constructors; [lia|].
  - now apply uint16_constructors; [lia|].
Qed.
End ConstructorFacts.

(** ** The theorems at sample inputs *)

Module OnSamples.
Import Sample.
Local Open Scope string_scope.

(** With [top] zero a chain of two entries is returned whole. *)
Example getTopRules_zero_on_sample :
  getTopRules sort_ties_kept tied_chain 0 = Ok [drop_a; allow_all].
Proof. reflexivity. Qed.

Lemma getTopRules_zero_returns_all_witness :
  std_sort_spec sort_ties_kept /\
  exists res,
    getTopRules sort_ties_kept tied_chain 0 = Ok res /\
    Permutation res tied_chain /\
    length res = length tied_chain /\
    (tied_chain <> [] -> res <> []) /\
    (forall top, length tied_chain <= top ->
                 getTopRules sort_ties_kept tied_chain top = Ok res).
Proof.
  split; [exact sort_ties_kept_spec|].
  exact (getTopRules_zero_returns_all sort_ties_kept tied_chain
           sort_ties_kept_spec).
Defined.

Lemma getTopRules_descending_witness :
  std_sort_spec sort_ties_kept /\
  exists res,
    getTopRules sort_ties_kept chain 2 = Ok res /\
    descending res /\
    (stable sort_ties_kept -> ties_by_position chain res).
Proof.
  split; [exact sort_ties_kept_spec|].
  exact (getTopRules_descending sort_ties_kept chain 2 sort_ties_kept_spec).
Defined.

(** With [top] two, the two entries that matched seven times come first,
    in the order of the chain under the stable sort. *)
Example getTopRules_two_on_sample :
  getTopRules sort_ties_kept chain 2 = Ok [drop_a; allow_all].
Proof. reflexivity. Qed.

(** C3: two entries are named "dup".  Whichever operand is evaluated
    first, [rmRule] does not publish the chain without the first of them:
    it gives up with the left operand first, and removes both with the right
    operand first. *)
Lemma rmRule_not_first_only :
  existsb (matching getUniqueID "dup") dup_chain = true /\
  remove_first (matching getUniqueID "dup") dup_chain = [allow_all; dup2] /\
  someRuleActions (rmRule getUniqueID LeftOperandFirst (st dup_chain)
                     (IdStr "dup")) = [dup1; allow_all; dup2] /\
  someRuleActions (rmRule getUniqueID RightOperandFirst (st dup_chain)
                     (IdStr "dup")) = [allow_all] /\
  ~ removes_first_match getUniqueID LeftOperandFirst (st dup_chain) "dup" /\
  ~ removes_first_match getUniqueID RightOperandFirst (st dup_chain) "dup".
Proof.
  repeat split; try reflexivity.
  - intros H. specialize (H eq_refl). vm_compute in H. discriminate.
  - intros H. specialize (H eq_refl). vm_compute in H. discriminate.
Qed.

Lemma rmRule_removes_every_match_witness :
  existsb (matching getUniqueID "dup") dup_chain = true /\
  rmRule getUniqueID RightOperandFirst (st dup_chain) (IdStr "dup") =
  setState [allow_all] (st dup_chain).
Proof.
  split; [reflexivity|].
  exact (proj1 (rmRule_removes_every_match getUniqueID (st dup_chain) "dup"
                  eq_refl)).
Defined.

(** Removal by id, of the entry whose id the string parses to. *)
Example rmRule_by_uuid_on_sample :
  rmRule getUniqueID RightOperandFirst (st chain) (IdStr uuid_text) =
  setState [allow_all; dup1] (st chain).
Proof. reflexivity. Qed.

Lemma rmRule_unknown_NotFound_witness :
  getUniqueID other_uuid_text = Some 1%N /\
  getUniqueID "nobody" = None /\
  someRuleActions
    (rmRule getUniqueID RightOperandFirst (st chain) (IdStr other_uuid_text)) =
  chain /\
  someRuleActions
    (rmRule getUniqueID LeftOperandFirst (st chain) (IdStr "nobody")) =
  chain.
Proof.
  split; [reflexivity|]. split; [reflexivity|]. split.
  - refine (proj2 (proj2 (rmRule_unknown_NotFound getUniqueID
                            RightOperandFirst (st chain) other_uuid_text _ _))).
    + intros u Hu a Ha. injection Hu as <-.
      destruct Ha as [<-|[<-|[<-|[]]]]; discriminate.
    + discriminate.
  - refine (proj2 (proj2 (rmRule_unknown_NotFound getUniqueID
                            LeftOperandFirst (st chain) "nobody" _ _))).
    + discriminate.
    + intros _ a Ha.
      destruct Ha as [<-|[<-|[<-|[]]]]; discriminate.
Defined.

Lemma mvRule_moves_witness :
  0 < length chain /\ 3 <= length chain /\
  exists subject,
    nth_error chain 0 = Some subject /\
    mvRule (st chain) 0 3 =
    setState (Vec.insert 2 subject (Vec.erase 0 chain)) (st chain) /\
    nth_error (someRuleActions (mvRule (st chain) 0 3)) 2 = Some subject /\
    length (someRuleActions (mvRule (st chain) 0 3)) = length chain.
Proof.
  split; [simpl; lia|]. split; [simpl; lia|].
  apply (proj1 (proj2 (mvRule_moves (st chain) 0 3))); simpl; lia.
Defined.

(** The first entry moved to the end, and the last moved to the top. *)
Example mvRule_on_sample :
  someRuleActions (mvRule (st chain) 0 3) = [allow_all; dup1; drop_a] /\
  someRuleActions (mvRule (st chain) 2 0) = [dup1; drop_a; allow_all] /\
  mvRule (st chain) 3 0 =
  setOutput ("Error: attempt to move rules from/to invalid index" ++ LF)
    (st chain).
Proof. repeat split. Qed.

Example moveRuleToTop_on_sample :
  someRuleActions (moveRuleToTop (st chain)) = [dup1; drop_a; allow_all].
Proof. reflexivity. Qed.

(** A mask and a name: the mask wins and the name is dropped. *)
Example makeRule_on_mixed :
  makeRule Netmask_of_string DNSName_of_string (VarStrings mixed) =
  Ok (new (NetmaskGroupRule ["10.0.0.0/8"] true false)) /\
  makeRule Netmask_of_string DNSName_of_string (VarStrings names_only) =
  Ok (new (SuffixMatchNodeRule ["example.com"; "example.org"] false)).
Proof. split; reflexivity. Qed.

Lemma lua_QTypeRule_narrows_witness :
  (0 <= 70000 <= uint_max)%Z /\
  @lua_QTypeRule string string (fun _ => 0%Z) (QTypeNum 70000) =
  Ok (new (QTypeRule 4464)).
Proof.
  assert (H : (0 <= 70000 <= uint_max)%Z) by (unfold uint_max; lia).
  split; [exact H|].
  exact (proj1 (lua_QTypeRule_narrows (fun _ => 0%Z) 70000 H)).
Defined.
End OnSamples.

(** * Further properties *)

(** ** Vectors, continued *)

Section MoreVecFacts.
Context {A : Type}.
Implicit Types (v : list A) (x : A).

Lemma erase_cons v x pos :
  Vec.erase (S pos) (x :: v) = x :: Vec.erase pos v.
Proof. reflexivity. Qed.

Lemma insert_cons v x y pos :
  Vec.insert (S pos) x (y :: v) = y :: Vec.insert pos x v.
Proof. reflexivity. Qed.

(** Putting an element in and taking it out again. *)
Lemma erase_insert v x pos :
  pos <= length v -> Vec.erase pos (Vec.insert pos x v) = v.
Proof.
  revert pos. induction v as [|y v IH]; intros [|pos] H; simpl in H;
    try reflexivity; try lia.
  rewrite insert_cons, erase_cons. f_equal. apply IH. lia.
Qed.

Lemma insert_perm v x pos : Permutation (Vec.insert pos x v) (x :: v).
Proof.
  unfold Vec.insert. rewrite <- Permutation_middle.
  now rewrite firstn_skipn.
Qed.

Lemma erase_perm v x pos :
  nth_error v pos = Some x -> Permutation (x :: Vec.erase pos v) v.
Proof.
  intros H. rewrite <- (insert_erase v x pos H) at 2.
  symmetry. apply insert_perm.
Qed.

Lemma erase_nth_error v pos i :
  nth_error (Vec.erase pos v) i =
  if i <? pos then nth_error v i else nth_error v (S i).
Proof.
  revert pos i. induction v as [|y v IH]; intros pos i.
  - unfold Vec.erase. rewrite firstn_nil, skipn_nil. simpl.
    destruct (i <? pos); now destruct i.
  - destruct pos as [|pos]; [reflexivity|]. rewrite erase_cons.
    destruct i as [|i]; [reflexivity|]. simpl nth_error. rewrite IH.
    reflexivity.
Qed.

Lemma StronglySorted_app_inv (R : A -> A -> Prop) (l1 l2 : list A) x y :
  StronglySorted R (l1 ++ l2) -> In x l1 -> In y l2 -> R x y.
Proof.
  induction l1 as [|a l1 IH]; intros Hs Hx Hy; [destruct Hx|].
  simpl in Hs. apply StronglySorted_inv in Hs. destruct Hs as [Hs Ha].
  destruct Hx as [<-|Hx]; [|now apply IH].
  rewrite Forall_forall in Ha. apply Ha. apply in_or_app. now right.
Qed.
End MoreVecFacts.

(** ** Chains, continued *)

Section MoreChainFacts.
Context {Netmask DNSName Action : Type}.
Abbreviation entry := (@RuleAction Netmask DNSName Action).
Abbreviation state := (@LuaState Netmask DNSName Action).
Implicit Types (st : state) (rules : list entry) (pred : entry -> bool).

Lemma setState_same st : setState (someRuleActions st) st = st.
Proof. now destruct st. Qed.

Lemma mvRule_error st from to :
  length (someRuleActions st) <= from \/ length (someRuleActions st) < to ->
  mvRule st from to =
  setOutput ("Error: attempt to move rules from/to invalid index" ++ LF)%string
    st.
Proof.
  intros H. unfold mvRule, getCopy. destruct H as [H|H].
  - apply Nat.leb_le in H. now rewrite H.
  - apply Nat.ltb_lt in H. now rewrite H, orb_true_r.
Qed.

Lemma mvRule_in_range st from to :
  from < length (someRuleActions st) -> to <= length (someRuleActions st) ->
  exists subject,
    nth_error (someRuleActions st) from = Some subject /\
    mvRule st from to =
    setState
      (Vec.insert (if from <? to then to - 1 else to) subject
         (Vec.erase from (someRuleActions st))) st.
Proof.
  intros Hfrom Hto. set (rules := someRuleActions st) in *.
  destruct (nth_error rules from) as [subject|] eqn:Hnth.
  2: { apply nth_error_None in Hnth. lia. }
  exists subject. split; [reflexivity|].
  unfold mvRule, getCopy. fold rules. rewrite Hnth.
  replace (length rules <=? from) with false
    by (symmetry; apply Nat.leb_gt; lia).
  replace (length rules <? to) with false
    by (symmetry; apply Nat.ltb_ge; lia).
  simpl. rewrite erase_length by assumption.
  destruct (length rules - 1 <? to) eqn:Hlast; [|reflexivity].
  apply Nat.ltb_lt in Hlast.
  replace (from <? to) with true by (symmetry; apply Nat.ltb_lt; lia).
  replace (to - 1) with (length (Vec.erase from rules))
    by (rewrite erase_length; lia).
  now rewrite insert_back.
Qed.

Lemma mvRule_perm st from to :
  Permutation (someRuleActions (mvRule st from to)) (someRuleActions st).
Proof.
  destruct (Nat.lt_ge_cases from (length (someRuleActions st))) as [Hf|Hf].
  - destruct (Nat.le_gt_cases to (length (someRuleActions st))) as [Ht|Ht].
    + destruct (mvRule_in_range st from to Hf Ht) as (subject & Hn & ->).
      simpl. rewrite insert_perm. now apply erase_perm.
    + rewrite mvRule_error by now right. reflexivity.
  - rewrite mvRule_error by now left. reflexivity.
Qed.

Lemma moveRuleToTop_snoc (l : list entry) (e : entry) (out : string) :
  moveRuleToTop (mkLuaState (l ++ [e]) out) = mkLuaState (e :: l) out.
Proof.
  unfold moveRuleToTop, getCopy, setState. simpl.
  destruct (l ++ [e]) as [|x l'] eqn:Hl; [now destruct l|].
  rewrite <- Hl.
  replace (length (l ++ [e]) - 1) with (length l)
    by (rewrite length_app; simpl; lia).
  rewrite nth_error_app2, Nat.sub_diag by lia. simpl.
  now rewrite erase_last.
Qed.

Lemma moveRuleToTop_mvRule st :
  someRuleActions st <> [] ->
  moveRuleToTop st = mvRule st (length (someRuleActions st) - 1) 0.
Proof.
  intros Hne.
  assert (Hlen : 0 < length (someRuleActions st))
    by (destruct (someRuleActions st); [congruence | simpl; lia]).
  destruct (mvRule_in_range st (length (someRuleActions st) - 1) 0)
    as (subject & Hn & ->); [lia..|].
  unfold moveRuleToTop, getCopy. rewrite Hn.
  now destruct (someRuleActions st).
Qed.

Lemma existsb_filter_negb pred rules :
  existsb pred (filter (fun a => negb (pred a)) rules) = false.
Proof.
  apply existsb_false. intros a Ha. apply filter_In in Ha.
  destruct Ha as [_ Ha]. now apply negb_true_iff in Ha.
Qed.

Lemma remove_first_length pred rules :
  existsb pred rules = true ->
  S (length (remove_first pred rules)) = length rules.
Proof.
  induction rules as [|a rules IH]; simpl; [discriminate|].
  destruct (pred a); simpl; [reflexivity|]. intros H. now rewrite IH.
Qed.

Lemma filter_remove_first_unique (u : uuid) rules :
  NoDup (map d_id rules) ->
  filter (fun a => negb (has_id u a)) rules = remove_first (has_id u) rules.
Proof.
  induction rules as [|a rules IH]; intros Hnd; [reflexivity|].
  simpl in Hnd. apply NoDup_cons_iff in Hnd. destruct Hnd as [Hnotin Hnd].
  simpl. destruct (has_id u a) eqn:Ha; simpl.
  - apply filter_negb_none. intros b Hb. unfold has_id in *.
    apply N.eqb_eq in Ha. apply N.eqb_neq. intros Heq. apply Hnotin.
    apply in_map_iff. exists b. split; [congruence | assumption].
  - f_equal. now apply IH.
Qed.

Lemma NoDup_map_perm {X Y : Type} (f : X -> Y) (l l' : list X) :
  Permutation l l' -> NoDup (map f l') -> NoDup (map f l).
Proof.
  intros Hp Hnd. eapply Permutation_NoDup; [|exact Hnd].
  apply Permutation_map. now symmetry.
Qed.

Lemma NoDup_map_filter {X Y : Type} (f : X -> Y) (p : X -> bool)
    (l : list X) :
  NoDup (map f l) -> NoDup (map f (filter p l)).
Proof.
  induction l as [|a l IH]; intros Hnd; [constructor|].
  simpl in Hnd. apply NoDup_cons_iff in Hnd. destruct Hnd as [Hnotin Hnd].
  simpl. destruct (p a); [|now apply IH]. simpl. constructor; [|now apply IH].
  intros Hin. apply Hnotin. apply in_map_iff in Hin.
  destruct Hin as (b & Hb & Hin). apply filter_In in Hin.
  apply in_map_iff. exists b. tauto.
Qed.

Lemma NoDup_map_erase {X Y : Type} (f : X -> Y) (pos : nat) (l : list X) :
  NoDup (map f l) -> NoDup (map f (Vec.erase pos l)).
Proof.
  intros Hnd. destruct (nth_error l pos) as [x|] eqn:Hx.
  - apply (NoDup_map_perm f _ _ (erase_perm l x pos Hx)) in Hnd.
    simpl in Hnd. now apply NoDup_cons_iff in Hnd.
  - apply nth_error_None in Hx. unfold Vec.erase.
    rewrite firstn_all2, skipn_all2, app_nil_r by lia. assumption.
Qed.

(** X1: Removal by position: a position that is not in the chain gives an
    error and nothing else; otherwise the entry at that position goes, the
    entries before it stay where they are and those after it move up by
    one, and no message is written. *)
Theorem rmRule_position getUniqueID order st pos :
  let st' := rmRule getUniqueID order st (IdPos pos) in
  (length (someRuleActions st) <= pos ->
   st' = setOutput
           ("Error: attempt to delete non-existing rule" ++ LF)%string st) /\
  (pos < length (someRuleActions st) ->
   g_outputBuffer st' = g_outputBuffer st /\
   S (length (someRuleActions st')) = length (someRuleActions st) /\
   forall i,
     nth_error (someRuleActions st') i =
     if i <? pos then nth_error (someRuleActions st) i
     else nth_error (someRuleActions st) (S i)).
Proof.
  intros st'. unfold st'. rewrite rmRule_IdPos. split; intros H.
  - apply Nat.leb_le in H. now rewrite H.
  - replace (length (someRuleActions st) <=? pos) with false
      by (symmetry; apply Nat.leb_gt; lia).
    simpl. split; [reflexivity|]. split.
    + rewrite erase_length by assumption. lia.
    + intros i. apply erase_nth_error.
Qed.

(** X2: [mvRule] never loses or duplicates an entry: whatever the arguments,
    the chain afterwards is a rearrangement of the chain before; and when
    it moves an entry it writes no message. *)
Theorem mvRule_rearranges st from to :
  Permutation (someRuleActions (mvRule st from to)) (someRuleActions st) /\
  length (someRuleActions (mvRule st from to)) = length (someRuleActions st) /\
  (someRuleActions (mvRule st from to) <> someRuleActions st ->
   g_outputBuffer (mvRule st from to) = g_outputBuffer st).
Proof.
  split; [apply mvRule_perm|]. split.
  - apply Permutation_length, mvRule_perm.
  - intros Hchanged.
    destruct (Nat.lt_ge_cases from (length (someRuleActions st))) as [Hf|Hf].
    + destruct (Nat.le_gt_cases to (length (someRuleActions st))) as [Ht|Ht].
      * now destruct (mvRule_in_range st from to Hf Ht) as (subject & _ & ->).
      * rewrite mvRule_error in Hchanged by now right. now destruct Hchanged.
    + rewrite mvRule_error in Hchanged by now left. now destruct Hchanged.
Qed.

(** X3: A move is undone by moving the entry back from where it landed: to
    [from] when it landed at or after [from], to [from + 1] when it landed
    before. *)
Theorem mvRule_round_trip st from to :
  from < length (someRuleActions st) -> to <= length (someRuleActions st) ->
  let landing := if from <? to then to - 1 else to in
  let back := if landing <? from then S from else from in
  mvRule (mvRule st from to) landing back = st.
Proof.
  intros Hfrom Hto landing back.
  destruct (mvRule_in_range st from to Hfrom Hto) as (subject & Hn & Hst1).
  fold landing in Hst1. set (rules := someRuleActions st) in *.
  assert (Hlanding : landing <= length (Vec.erase from rules)).
  { rewrite erase_length by assumption. unfold landing.
    destruct (from <? to) eqn:E; [apply Nat.ltb_lt in E|apply Nat.ltb_ge in E];
      lia. }
  assert (Hlen1 : length (someRuleActions (mvRule st from to)) = length rules).
  { rewrite Hst1. simpl. rewrite insert_length, erase_length by assumption.
    lia. }
  rewrite erase_length in Hlanding by assumption.
  destruct (mvRule_in_range (mvRule st from to) landing back)
    as (subject' & Hn' & Hst2).
  { rewrite Hlen1. lia. }
  { rewrite Hlen1. unfold back. destruct (landing <? from); lia. }
  rewrite Hst2. clear Hst2.
  assert (Htarget : (if landing <? back then back - 1 else back) = from).
  { unfold back. destruct (landing <? from) eqn:E.
    - apply Nat.ltb_lt in E.
      replace (landing <? S from) with true
        by (symmetry; apply Nat.ltb_lt; lia). lia.
    - now rewrite E. }
  rewrite Htarget. rewrite Hst1 in Hn' |- *. simpl in Hn' |- *.
  rewrite insert_nth_error in Hn' by (rewrite erase_length; [lia|assumption]).
  injection Hn' as <-.
  rewrite erase_insert by (rewrite erase_length; [lia|assumption]).
  rewrite (insert_erase rules subject from Hn).
  unfold setState. simpl. unfold rules. now destruct st.
Qed.

(** X4: On a chain that is not empty, [moveRuleToTop] is [mvRule] from the last
    position to position zero. *)
Theorem moveRuleToTop_is_mvRule st :
  someRuleActions st <> [] ->
  moveRuleToTop st = mvRule st (length (someRuleActions st) - 1) 0.
Proof. apply moveRuleToTop_mvRule. Qed.

Lemma moveRuleToTop_iter (l1 l2 : list entry) (out : string) :
  Nat.iter (length l2) moveRuleToTop (mkLuaState (l1 ++ l2) out) =
  mkLuaState (l2 ++ l1) out.
Proof.
  revert l1. induction l2 as [|e l2 IH]; intros l1.
  - simpl. now rewrite app_nil_r.
  - simpl Nat.iter.
    replace (l1 ++ e :: l2) with ((l1 ++ [e]) ++ l2)
      by now rewrite <- app_assoc.
    rewrite IH, app_assoc, moveRuleToTop_snoc. reflexivity.
Qed.

(** X5: [moveRuleToTop] turns the chain by one entry: done as many times as
    the chain has entries, it gives the chain back. *)
Theorem moveRuleToTop_cycle st :
  Nat.iter (length (someRuleActions st)) moveRuleToTop st = st.
Proof.
  destruct st as [rules out]. simpl.
  pose proof (moveRuleToTop_iter [] rules out) as H. simpl in H.
  now rewrite H, app_nil_r.
Qed.

(** X6: Removing by the same string a second time always reports that no rule
    matched and changes nothing more. *)
Theorem rmRule_twice getUniqueID order st str :
  let st1 := rmRule getUniqueID order st (IdStr str) in
  rmRule getUniqueID order st1 (IdStr str) =
  setOutput ("Error: no rule matched" ++ LF)%string st1.
Proof.
  intros st1. rewrite rmRule_IdStr. destruct order; [reflexivity|].
  unfold st1. rewrite rmRule_IdStr.
  destruct (existsb (matching getUniqueID str) (someRuleActions st)) eqn:Hex;
    simpl.
  - now rewrite existsb_filter_negb.
  - now rewrite Hex.
Qed.

(** X7: In a chain whose ids are all different, removal by a UUID that some
    entry has takes out that one entry and nothing else (when the end of
    the vector is read before the entries are erased). *)
Theorem rmRule_unique_id getUniqueID st str u :
  NoDup (map d_id (someRuleActions st)) ->
  getUniqueID str = Some u ->
  existsb (has_id u) (someRuleActions st) = true ->
  rmRule getUniqueID RightOperandFirst st (IdStr str) =
    setState (remove_first (has_id u) (someRuleActions st)) st /\
  S (length (remove_first (has_id u) (someRuleActions st))) =
    length (someRuleActions st).
Proof.
  intros Hnd Hu Hex. split; [|now apply remove_first_length].
  rewrite rmRule_IdStr. unfold matching. rewrite Hu, Hex. simpl.
  now rewrite filter_remove_first_unique.
Qed.

(** X8: No operation on a chain makes two entries share an id: if the ids are
    all different before [rmRule], [mvRule] or [moveRuleToTop], they are
    all different after. *)
Theorem ids_stay_unique getUniqueID order st id from to :
  NoDup (map d_id (someRuleActions st)) ->
  NoDup (map d_id (someRuleActions (rmRule getUniqueID order st id))) /\
  NoDup (map d_id (someRuleActions (mvRule st from to))) /\
  NoDup (map d_id (someRuleActions (moveRuleToTop st))).
Proof.
  intros Hnd. split; [|split].
  - destruct id as [pos|str].
    + rewrite rmRule_IdPos.
      destruct (length (someRuleActions st) <=? pos); simpl;
        [assumption | now apply NoDup_map_erase].
    + rewrite rmRule_IdStr.
      destruct (match order with
                | LeftOperandFirst => true
                | RightOperandFirst =>
                    negb (existsb (matching getUniqueID str)
                            (someRuleActions st))
                end); simpl; [assumption | now apply NoDup_map_filter].
  - exact (NoDup_map_perm d_id _ _ (mvRule_perm st from to) Hnd).
  - destruct (someRuleActions st) as [|a l] eqn:Hl.
    + unfold moveRuleToTop, getCopy. rewrite Hl. simpl. rewrite Hl.
      constructor.
    + rewrite moveRuleToTop_mvRule by congruence.
      apply (NoDup_map_perm d_id _ _ (mvRule_perm st _ _)).
      now rewrite Hl.
Qed.
End MoreChainFacts.

(** ** getTopRules, continued *)

Section MoreTopRulesFacts.
Context {Netmask DNSName Action : Type}.
Abbreviation entry := (@RuleAction Netmask DNSName Action).
Abbreviation state := (@LuaState Netmask DNSName Action).
Implicit Types (rules res : list entry) (sel : list (N * nat)).

Lemma selects_functional rules sel res res' :
  Forall2 (selects rules) sel res -> Forall2 (selects rules) sel res' ->
  res = res'.
Proof.
  intros H. revert res'.
  induction H as [|e r sel res [Hn _] _ IH]; intros res' H';
    inversion H' as [|e' r' sel' res'' [Hn' _] Hrest]; subst; [reflexivity|].
  f_equal; [congruence | now apply IH].
Qed.

(** The rules in the order of the sorted pairs: every call of
    [getTopRules] on a chain returns a prefix of this one list. *)
Lemma getTopRules_prefix_of sort rules :
  std_sort_spec sort ->
  exists all,
    Permutation all rules /\ descending all /\
    forall top,
      getTopRules sort rules top =
      Ok (firstn (if 0 <? top then top else length rules) all).
Proof.
  intros Hsort.
  assert (Hperm : forall l, Permutation (sort comp l) l)
    by (intros l; apply Hsort).
  destruct (getTopRules_firstn sort rules 0 Hperm) as (all & Hsel & Hall & _).
  exists all. split; [assumption|]. split.
  - apply (StronglySorted_Forall2 (selects rules)
             (fun a b => comp b a = false) _ (sort comp (counts_of rules))).
    + intros a b x y [_ Ha] [_ Hb] Hab. apply comp_false in Hab.
      now rewrite <- Ha, <- Hb.
    + assumption.
    + apply Hsort.
  - intros top.
    destruct (getTopRules_firstn sort rules top Hperm)
      as (all' & Hsel' & _ & Htop).
    now rewrite (selects_functional _ _ _ _ Hsel Hsel').
Qed.

(** X9: The Lua function returns ten entries when it is given no number,
    the chain permitting; every entry when it is given zero; and as many
    as asked for otherwise, or the whole chain if that is less. *)
Theorem lua_getTopRules_length sort st top :
  std_sort_spec sort ->
  exists res,
    lua_getTopRules sort st top = Ok res /\
    length res =
    match top with
    | None => Nat.min 10 (length (someRuleActions st))
    | Some 0 => length (someRuleActions st)
    | Some (S n) => Nat.min (S n) (length (someRuleActions st))
    end.
Proof.
  intros Hsort.
  destruct (getTopRules_prefix_of sort (someRuleActions st) Hsort)
    as (all & Hall & _ & Htop).
  unfold lua_getTopRules. rewrite Htop. eexists. split; [reflexivity|].
  rewrite length_firstn, (Permutation_length Hall).
  destruct top as [[|n]|]; simpl get_value_or; cbn [Nat.ltb Nat.leb]; lia.
Qed.

(** X10: What [getTopRules] returns is the top of the chain: together with the
    entries it leaves out it makes up the chain, and no entry left out has
    more matches than an entry returned. *)
Theorem getTopRules_takes_the_top sort rules top :
  std_sort_spec sort ->
  exists res rest,
    getTopRules sort rules top = Ok res /\
    Permutation (res ++ rest) rules /\
    forall x y, In x res -> In y rest ->
      (d_matches (d_rule y) <= d_matches (d_rule x))%N.
Proof.
  intros Hsort.
  destruct (getTopRules_prefix_of sort rules Hsort)
    as (all & Hall & Hdesc & Htop).
  set (n := if 0 <? top then top else length rules).
  exists (firstn n all), (skipn n all).
  split; [apply Htop|]. split; [now rewrite firstn_skipn|].
  intros x y Hx Hy. unfold descending in Hdesc.
  rewrite <- (firstn_skipn n all) in Hdesc.
  exact (StronglySorted_app_inv _ _ _ x y Hdesc Hx Hy).
Qed.

(** X11: Asking for fewer entries gives the beginning of what asking for more
    gives. *)
Theorem getTopRules_prefix sort rules n m :
  std_sort_spec sort ->
  0 < n -> n <= m ->
  exists res,
    getTopRules sort rules m = Ok res /\
    getTopRules sort rules n = Ok (firstn n res).
Proof.
  intros Hsort Hn Hnm.
  destruct (getTopRules_prefix_of sort rules Hsort) as (all & _ & _ & Htop).
  exists (firstn m all). rewrite !Htop.
  replace (0 <? m) with true by (symmetry; apply Nat.ltb_lt; lia).
  replace (0 <? n) with true by (symmetry; apply Nat.ltb_lt; lia).
  split; [reflexivity|]. now rewrite firstn_firstn, Nat.min_l.
Qed.
End MoreTopRulesFacts.

(** ** setRules and makeRule, continued *)

Section MoreMakeRuleFacts.
Context {Netmask DNSName Action : Type}.
Variable Netmask_of_string : string -> option Netmask.
Variable DNSName_of_string : string -> option DNSName.
Abbreviation entry := (@RuleAction Netmask DNSName Action).
Abbreviation state := (@LuaState Netmask DNSName Action).
Abbreviation rule := (@DNSRule Netmask DNSName).
Abbreviation make := (makeRule Netmask_of_string DNSName_of_string).

Lemma push_each_eq (has_action : Action -> bool) (new : LuaArray entry)
    (acc : list entry) :
  push_each Netmask_of_string DNSName_of_string has_action new acc =
  Ok (acc ++ filter (fun e => has_action (d_action e)) (map snd new)).
Proof.
  revert acc. induction new as [|[i e] new IH]; intros acc; simpl.
  - now rewrite app_nil_r.
  - destruct (has_action (d_action e)); [|apply IH].
    cbn [bind]. rewrite IH. unfold Vec.push_back. rewrite <- app_assoc.
    now destruct e.
Qed.

(** X12: [setRules] never throws.  Whatever the chain was, it becomes the new
    entries that have an action, in their order and as they were given,
    rule and counter included; an entry without an action is left out and
    nothing is said about it. *)
Theorem setRules_keeps_entries_with_action (has_action : Action -> bool)
    (new : LuaArray entry) (st : state) :
  setRules Netmask_of_string DNSName_of_string has_action new st =
  Ok (setState (filter (fun e => has_action (d_action e)) (map snd new)) st).
Proof.
  unfold setRules, modify. now rewrite push_each_eq.
Qed.

Lemma smn_add_each_eq (a : LuaArray DNSName) (smn : list DNSName) :
  smn_add_each a smn = smn ++ map snd a.
Proof.
  revert smn. induction a as [|e a IH]; intros smn; simpl.
  - now rewrite app_nil_r.
  - now rewrite IH, <- app_assoc.
Qed.

(** X13: Given domain names, one or an array, [makeRule] never throws and
    builds the suffix match rule over exactly these names in their order,
    also over none for the empty array; given a rule it hands that rule
    back. *)
Theorem makeRule_of_names (a : LuaArray DNSName) (n : DNSName) (r : rule) :
  make (VarDNSNames a) = Ok (new (SuffixMatchNodeRule (map snd a) false)) /\
  make (VarDNSName n) = Ok (new (SuffixMatchNodeRule [n] false)) /\
  make (VarRule r) = Ok r.
Proof.
  repeat split. unfold makeRule. cbv beta iota. cbn [bind].
  pose proof (smn_add_each_eq a []) as H. unfold SuffixMatchNode in *.
  now rewrite H.
Qed.

Lemma add_each_first_refused (a : LuaArray string) smn nmg :
  add_each Netmask_of_string DNSName_of_string a (smn, nmg) =
  match first_refused Netmask_of_string DNSName_of_string a with
  | Some src => Err (MalformedPattern src)
  | None =>
      Ok (smn ++ suffixes_of Netmask_of_string DNSName_of_string a,
          nmg ++ masks_of Netmask_of_string a)
  end.
Proof.
  revert smn nmg. induction a as [|e a IH]; intros smn nmg.
  - simpl. now rewrite !app_nil_r.
  - cbn [add_each add first_refused masks_of suffixes_of flat_map].
    destruct (Netmask_of_string (snd e)) as [mask|].
    + cbn [bind]. rewrite IH.
      destruct (first_refused Netmask_of_string DNSName_of_string a);
        [reflexivity|].
      unfold masks_of, suffixes_of. now rewrite <- app_assoc.
    + destruct (DNSName_of_string (snd e)) as [name|]; [|reflexivity].
      cbn [bind]. rewrite IH.
      destruct (first_refused Netmask_of_string DNSName_of_string a);
        [reflexivity|].
      unfold masks_of, suffixes_of. now rewrite <- app_assoc.
Qed.

(** X14: Given an array of strings, [makeRule] throws for the first string that
    is neither a mask nor a domain name, whatever precedes or follows it;
    if there is none, it returns the netmask group rule over the masks when
    there is a mask, and the suffix match rule over the names when there
    is not, also for the empty array. *)
Theorem makeRule_of_strings (a : LuaArray string) :
  make (VarStrings a) =
  match first_refused Netmask_of_string DNSName_of_string a with
  | Some src => Err (MalformedPattern src)
  | None =>
      match masks_of Netmask_of_string a with
      | [] =>
          Ok (new (SuffixMatchNodeRule
                     (suffixes_of Netmask_of_string DNSName_of_string a)
                     false))
      | _ :: _ =>
          Ok (new (NetmaskGroupRule (masks_of Netmask_of_string a) true false))
      end
  end.
Proof.
  pose proof (add_each_first_refused a [] []) as Hadd.
  unfold SuffixMatchNode, NetmaskGroup in Hadd.
  unfold makeRule. cbv beta iota. rewrite Hadd.
  destruct (first_refused Netmask_of_string DNSName_of_string a);
    reflexivity.
Qed.
Lemma first_refused_None (a : LuaArray string) :
  first_refused Netmask_of_string DNSName_of_string a = None <->
  suffix_or_mask Netmask_of_string DNSName_of_string a.
Proof.
  induction a as [|e a IH]; simpl.
  - split; [intros _ e [] | reflexivity].
  - destruct (Netmask_of_string (snd e)) as [mask|] eqn:Hm.
    + rewrite IH. split.
      * intros H e' [<-|He'] Hnone; [congruence | now apply H].
      * intros H e' He'. apply H. now right.
    + destruct (DNSName_of_string (snd e)) as [name|] eqn:Hn.
      * rewrite IH. split.
        -- intros H e' [<-|He'] Hnone; [congruence | now apply H].
        -- intros H e' He'. apply H. now right.
      * split; [discriminate|]. intros H.
        now destruct (H e (or_introl eq_refl) Hm).
Qed.

Lemma first_refused_Some (a : LuaArray string) (src : string) :
  first_refused Netmask_of_string DNSName_of_string a = Some src ->
  In src (map snd a) /\
  Netmask_of_string src = None /\ DNSName_of_string src = None.
Proof.
  induction a as [|e a IH]; simpl; [discriminate|].
  destruct (Netmask_of_string (snd e)) as [mask|] eqn:Hm.
  - intros H. destruct (IH H) as (Hin & Hrest). split; [now right | exact Hrest].
  - destruct (DNSName_of_string (snd e)) as [name|] eqn:Hn.
    + intros H. destruct (IH H) as (Hin & Hrest).
      split; [now right | exact Hrest].
    + intros H. injection H as <-. repeat split; try assumption. now left.
Qed.

(** C6 (as amended): given strings, [makeRule] tries each as a mask first
    and takes it as a domain suffix when that fails.  If some string is
    accepted as neither, it throws for the first such string and returns
    no rule, whatever masks were accepted before.  Otherwise, if any mask
    was accepted the result is the netmask group rule on the source
    address, not quiet, over the accepted masks, and the suffixes are
    dropped; if none was, it is the suffix match rule over the suffixes.  A
    single string is treated as the array of that one string, and a result,
    when there is one, is one of these two rules, never a combination. *)
Theorem makeRule_masks_win (a : LuaArray string) :
  (suffix_or_mask Netmask_of_string DNSName_of_string a ->
   (masks_of Netmask_of_string a <> [] ->
    make (VarStrings a) =
    Ok (new (NetmaskGroupRule (masks_of Netmask_of_string a) true false))) /\
   (masks_of Netmask_of_string a = [] ->
    make (VarStrings a) =
    Ok (new (SuffixMatchNodeRule
               (suffixes_of Netmask_of_string DNSName_of_string a) false)))) /\
  (forall src,
      first_refused Netmask_of_string DNSName_of_string a = Some src ->
      make (VarStrings a) = Err (MalformedPattern src) /\
      In src (map snd a) /\
      Netmask_of_string src = None /\ DNSName_of_string src = None) /\
  (suffix_or_mask Netmask_of_string DNSName_of_string a \/
   exists src,
     first_refused Netmask_of_string DNSName_of_string a = Some src) /\
  (forall (i : Z) (s : string),
      make (VarString s) = make (VarStrings [(i, s)])) /\
  (forall r : rule,
      make (VarStrings a) = Ok r ->
      suffix_or_mask Netmask_of_string DNSName_of_string a /\
      match impl r with
      | NetmaskGroupRule nmg true false =>
          nmg = masks_of Netmask_of_string a /\ nmg <> []
      | SuffixMatchNodeRule smn false =>
          smn = suffixes_of Netmask_of_string DNSName_of_string a /\
          masks_of Netmask_of_string a = []
      | _ => False
      end).
Proof.
  assert (Hmake : make (VarStrings a) =
                  match first_refused Netmask_of_string DNSName_of_string a
                  with
                  | Some src => Err (MalformedPattern src)
                  | None =>
                      match masks_of Netmask_of_string a with
                      | [] =>
                          Ok (new (SuffixMatchNodeRule
                                     (suffixes_of Netmask_of_string
                                        DNSName_of_string a) false))
                      | _ :: _ =>
                          Ok (new (NetmaskGroupRule
                                     (masks_of Netmask_of_string a) true false))
                      end
                  end).
  { pose proof (add_each_first_refused a [] []) as Hadd.
    unfold SuffixMatchNode, NetmaskGroup in Hadd.
    unfold makeRule. cbv beta iota. rewrite Hadd.
    destruct (first_refused Netmask_of_string DNSName_of_string a);
      reflexivity. }
  split; [|split; [|split; [|split]]].
  - intros Hwf. apply first_refused_None in Hwf. rewrite Hmake, Hwf. split.
    + intros Hne. now destruct (masks_of Netmask_of_string a).
    + intros ->. reflexivity.
  - intros src Hsrc. split; [now rewrite Hmake, Hsrc|].
    now apply first_refused_Some.
  - destruct (first_refused Netmask_of_string DNSName_of_string a) as [src|]
      eqn:Hf.
    + right. now exists src.
    + left. now apply first_refused_None.
  - intros i s. unfold makeRule. cbv beta iota. cbn [add_each snd].
    destruct (add Netmask_of_string DNSName_of_string s ([], []))
      as [[smn nmg]|err]; reflexivity.
  - intros r Hr. rewrite Hmake in Hr.
    destruct (first_refused Netmask_of_string DNSName_of_string a) as [src|]
      eqn:Hf; [discriminate|].
    split; [now apply first_refused_None|].
    destruct (masks_of Netmask_of_string a) as [|m ms] eqn:Hm;
      injection Hr as <-; simpl; split; congruence.
Qed.
End MoreMakeRuleFacts.

(** ** The rule constructors, continued *)

Section MoreConstructorFacts.
Context {Netmask DNSName : Type}.
Abbreviation rule := (@DNSRule Netmask DNSName).

Lemma checkParameterBound_Ok parameter value max (k : result rule) r :
  (checkParameterBound parameter value max ;;; k) = Ok r <->
  (value <= max)%Z /\ k = Ok r.
Proof.
  unfold checkParameterBound. destruct (max <? value)%Z eqn:E; cbn [bind].
  - apply Z.ltb_lt in E. split; [discriminate | lia].
  - apply Z.ltb_ge in E. tauto.
Qed.

(** X15: [RecordsTypeCountRule] and [QNameLabelsCountRule] return a rule exactly
    when every argument fits its field, 8 bits for the section, 16 for the
    type and the counts, 32 for the label counts; the rule then holds the
    arguments as they were given. *)
Theorem counting_rules_checked (section type minCount maxCount : Z) (r : rule) :
  (0 <= section)%Z -> (0 <= type)%Z -> (0 <= minCount)%Z ->
  (0 <= maxCount)%Z ->
  (lua_RecordsTypeCountRule section type minCount maxCount = Ok r <->
   (section <= 255 /\ type <= 65535 /\ minCount <= 65535 /\
    maxCount <= 65535)%Z /\
   r = new (RecordsTypeCountRule section type minCount maxCount)) /\
  (lua_QNameLabelsCountRule minCount maxCount = Ok r <->
   (minCount <= 4294967295 /\ maxCount <= 4294967295)%Z /\
   r = new (QNameLabelsCountRule minCount maxCount)).
Proof.
  intros Hs Ht Hmin Hmax. split.
  - unfold lua_RecordsTypeCountRule.
    rewrite !checkParameterBound_Ok. unfold uint8_max, uint16_max. split.
    + intros (H1 & H2 & H3 & H4 & H). repeat split; try assumption.
      rewrite to_uint8_small, !to_uint16_small in H
        by (unfold uint8_max, uint16_max; lia).
      congruence.
    + intros ((H1 & H2 & H3 & H4) & ->). repeat split; try assumption.
      now rewrite to_uint8_small, !to_uint16_small
        by (unfold uint8_max, uint16_max; lia).
  - unfold lua_QNameLabelsCountRule.
    rewrite !checkParameterBound_Ok. unfold uint_max. split.
    + intros (H1 & H2 & H). repeat split; try assumption.
      rewrite !to_uint_small in H by (unfold uint_max; lia). congruence.
    + intros ((H1 & H2) & ->). repeat split; try assumption.
      now rewrite !to_uint_small by (unfold uint_max; lia).
Qed.

(** X16: [QTypeRule] given a name throws when [chartocode] has no code for it,
    and otherwise builds the rule for that code, which is never zero;
    given the number zero it builds the rule for type zero. *)
Theorem lua_QTypeRule_by_name (chartocode : string -> Z) (val : string) :
  (to_uint16 (chartocode val) = 0%Z ->
   lua_QTypeRule chartocode (QTypeName val) =
   (Err (UnableToConvert val) : result rule)) /\
  (to_uint16 (chartocode val) <> 0%Z ->
   lua_QTypeRule chartocode (QTypeName val) =
   (Ok (new (QTypeRule (to_uint16 (chartocode val)))) : result rule) /\
   (1 <= to_uint16 (chartocode val) <= 65535)%Z) /\
  lua_QTypeRule chartocode (QTypeNum 0) =
  (Ok (new (QTypeRule 0)) : result rule).
Proof.
  unfold lua_QTypeRule. repeat split.
  - intros ->. reflexivity.
  - apply Z.eqb_neq in H. now rewrite H.
  - pose proof (Z.mod_pos_bound (chartocode val) (2 ^ 16)) as Hb.
    unfold to_uint16 in *. lia.
  - pose proof (Z.mod_pos_bound (chartocode val) (2 ^ 16)) as Hb.
    unfold to_uint16 in *. lia.
Qed.
End MoreConstructorFacts.

(** ** Rule parameters *)

Section RuleParamsFacts.
Variable getUniqueID : string -> option uuid.
Implicit Types (st : RuleParamsState) (params : option luaruleparams_t).

(** The string handed to [makeRuleID]. *)
Lemma parseRuleParams_cases fresh params st :
  let uuidStr :=
    match params with
    | Some p => match p "uuid"%string with Some v => v | None => ""%string end
    | None => ""%string
    end in
  let name :=
    match params with
    | Some p => match p "name"%string with Some v => v | None => ref_name st end
    | None => ref_name st
    end in
  parseRuleParams getUniqueID fresh params st =
  match makeRuleID getUniqueID fresh uuidStr with
  | inr e =>
      Threw e (mkRuleParamsState (ref_uuid st) name (ref_creationOrder st)
                 (s_creationOrder st))
  | inl u =>
      Done (mkRuleParamsState u name (s_creationOrder st)
              ((s_creationOrder st + 1) mod 2 ^ 64)%N)
  end.
Proof. reflexivity. Qed.

(** X17: Creation orders are handed out one after the other: a call that
    returns gives the rule the value of the counter, and the next call that
    returns gives the value after it, which is a different one. *)
Theorem parseRuleParams_creation_orders fresh1 fresh2 params1 params2
    st st1 st2 :
  (s_creationOrder st < 2 ^ 64)%N ->
  parseRuleParams getUniqueID fresh1 params1 st = Done st1 ->
  parseRuleParams getUniqueID fresh2 params2 st1 = Done st2 ->
  ref_creationOrder st1 = s_creationOrder st /\
  ref_creationOrder st2 = ((s_creationOrder st + 1) mod 2 ^ 64)%N /\
  ref_creationOrder st2 <> ref_creationOrder st1 /\
  ((s_creationOrder st + 1 < 2 ^ 64)%N ->
   ref_creationOrder st2 = (ref_creationOrder st1 + 1)%N).
Proof.
  intros Hs H1 H2.
  rewrite parseRuleParams_cases in H1, H2. cbv zeta in H1, H2.
  destruct (makeRuleID getUniqueID fresh1 _) as [u1|e1]; [|discriminate].
  destruct (makeRuleID getUniqueID fresh2 _) as [u2|e2]; [|discriminate].
  injection H1 as <-. injection H2 as <-. simpl.
  assert (Hpow : (2 ^ 64 = 18446744073709551616)%N) by reflexivity.
  rewrite Hpow in *.
  repeat split.
  - destruct (N.eq_dec (s_creationOrder st + 1) 18446744073709551616) as [E|E].
    + rewrite E, N.Div0.mod_same. lia.
    + rewrite N.mod_small by lia. lia.
  - intros Hlt. now rewrite N.mod_small.
Qed.

(** X18: A call with a [uuid] entry that is not empty and not a UUID throws
    before the counter is touched: no creation order is used up, and the
    references to the id and the creation order keep what they held. *)
Theorem parseRuleParams_bad_uuid fresh (p : luaruleparams_t) (id : string) st :
  p "uuid"%string = Some id -> id <> ""%string -> getUniqueID id = None ->
  exists st',
    parseRuleParams getUniqueID fresh (Some p) st = Threw (not_a_uuid id) st' /\
    s_creationOrder st' = s_creationOrder st /\
    ref_creationOrder st' = ref_creationOrder st /\
    ref_uuid st' = ref_uuid st.
Proof.
  intros Hp Hid Hnone. rewrite parseRuleParams_cases. cbv zeta. rewrite Hp.
  unfold makeRuleID. apply String.eqb_neq in Hid. rewrite Hid, Hnone.
  eexists. split; [reflexivity|]. repeat split.
Qed.

(** X19: Without parameters, without a [uuid] entry or with an empty one, the
    rule gets a generated id and the call returns; without a [name] entry
    the name keeps what it held. *)
Theorem parseRuleParams_defaults fresh params st :
  match params with
  | Some p => p "uuid"%string = None \/ p "uuid"%string = Some ""%string
  | None => True
  end ->
  exists st',
    parseRuleParams getUniqueID fresh params st = Done st' /\
    ref_uuid st' = fresh /\
    (match params with
     | Some p => p "name"%string = None
     | None => True
     end -> ref_name st' = ref_name st).
Proof.
  intros Hu. rewrite parseRuleParams_cases. cbv zeta.
  destruct params as [p|]; simpl.
  - destruct Hu as [Hu|Hu]; rewrite Hu; simpl;
      (eexists; split; [reflexivity|]; split; [reflexivity|]);
      intros Hn; simpl; now rewrite Hn.
  - eexists. split; [reflexivity|]. split; [reflexivity|]. reflexivity.
Qed.
End RuleParamsFacts.

(** ** Listings *)

Lemma string_app_nil_r (s : string) : (s ++ "")%string = s.
Proof. induction s as [|c s IH]; simpl; [reflexivity | now rewrite IH]. Qed.

Lemma string_app_assoc (s1 s2 s3 : string) :
  (s1 ++ (s2 ++ s3))%string = ((s1 ++ s2) ++ s3)%string.
Proof. induction s1 as [|c s1 IH]; simpl; [reflexivity | now rewrite IH]. Qed.

Lemma substr0_length (s : string) (count : N) :
  String.length (substr0 s count) = Nat.min (String.length s) (N.to_nat count).
Proof.
  revert count. induction s as [|c s IH]; intros count; [reflexivity|].
  cbn [substr0]. destruct (count =? 0)%N eqn:E.
  - apply N.eqb_eq in E. subst. reflexivity.
  - apply N.eqb_neq in E. cbn [String.length]. rewrite IH, N2Nat.inj_pred.
    assert (0 < N.to_nat count) by lia. lia.
Qed.

Lemma substr0_prefix (s : string) (count : N) :
  exists rest, s = (substr0 s count ++ rest)%string.
Proof.
  revert count. induction s as [|c s IH]; intros count.
  - now exists ""%string.
  - simpl. destruct (count =? 0)%N.
    + now exists (String c s).
    + destruct (IH (N.pred count)) as [rest Hrest]. exists rest. simpl.
      now rewrite <- Hrest.
Qed.

Lemma substr0_all (s : string) (count : N) :
  (N.of_nat (String.length s) <= count)%N -> substr0 s count = s.
Proof.
  revert count. induction s as [|c s IH]; intros count H; [reflexivity|].
  simpl in *. destruct (count =? 0)%N eqn:E.
  - apply N.eqb_eq in E. lia.
  - f_equal. apply IH. lia.
Qed.

Section ListingFacts.
Context {Netmask DNSName Action : Type}.
Variable format : string -> list format_arg -> string.
Variable rule_toString : @DNSRule Netmask DNSName -> string.
Variable action_toString : Action -> string.
Variable uuid_to_string : uuid -> string.
Abbreviation entry := (@RuleAction Netmask DNSName Action).
Abbreviation state := (@LuaState Netmask DNSName Action).
Abbreviation listing :=
  (rulesToString format rule_toString action_toString uuid_to_string).
Abbreviation with_uuids :=
  (row_with_uuids format rule_toString action_toString uuid_to_string).
Abbreviation plain := (row_plain format rule_toString action_toString).

Lemma rows_result (row : Z -> entry -> string) (l : list entry) num result :
  rows row l num result = (result ++ rows row l num "")%string.
Proof.
  revert num result. induction l as [|lim l IH]; intros num result; simpl.
  - now rewrite string_app_nil_r.
  - rewrite IH, (IH _ (row num lim)). apply eq_sym, string_app_assoc.
Qed.

Lemma rows_app (row : Z -> entry -> string) (l1 l2 : list entry) num result :
  rows row (l1 ++ l2) num result =
  rows row l2 (num + Z.of_nat (length l1))%Z (rows row l1 num result).
Proof.
  revert num result. induction l1 as [|lim l1 IH]; intros num result.
  - simpl. now rewrite Z.add_0_r.
  - cbn [app rows length]. rewrite IH. f_equal. lia.
Qed.

Lemma rows_lines (row : Z -> entry -> string) (l : list entry) (k : nat)
    (result : string) :
  rows row l (Z.of_nat k) result =
  (result ++
   fold_right String.append ""
     (map (fun p => row (fst p) (snd p))
        (combine (map Z.of_nat (seq k (length l))) l)))%string.
Proof.
  revert k result. induction l as [|lim l IH]; intros k result.
  - simpl. now rewrite string_app_nil_r.
  - cbn [rows length seq map combine fold_right fst snd].
    replace (Z.of_nat k + 1)%Z with (Z.of_nat (S k)) by lia.
    rewrite IH. apply eq_sym, string_app_assoc.
Qed.

Lemma substr0_substring (s : string) (count : N) :
  substr0 s count = substring 0 (N.to_nat count) s.
Proof.
  revert count. induction s as [|c s IH]; intros count.
  - simpl. now destruct (N.to_nat count).
  - cbn [substr0]. destruct (count =? 0)%N eqn:E.
    + apply N.eqb_eq in E. subst. reflexivity.
    + apply N.eqb_neq in E. rewrite IH, N2Nat.inj_pred.
      destruct (N.to_nat count) as [|n] eqn:En; [lia|]. reflexivity.
Qed.

Lemma substring_length (s : string) (n : nat) :
  String.length (substring 0 n s) = Nat.min n (String.length s).
Proof.
  revert n. induction s as [|c s IH]; intros [|n]; simpl; try reflexivity.
  now rewrite IH.
Qed.

(** The width that [rulesToString] reads cuts a description as the
    options say. *)
Lemma read_truncateRuleWidth_shown (vars : option ruleparams_t)
    (w : option Z) :
  says_width vars w ->
  match w with Some i => (- 2 ^ 31 <= i < 2 ^ 31)%Z | None => True end ->
  exists width,
    read_truncateRuleWidth vars = inl width /\
    forall s, (Z.of_nat (String.length s) < 2 ^ 63)%Z ->
              substr0 s width = shown w s.
Proof.
  intros Hsays Hrange.
  assert (Hpow : (2 ^ 64 = 18446744073709551616)%Z) by reflexivity.
  assert (Hnone : forall s, (Z.of_nat (String.length s) < 2 ^ 63)%Z ->
                            substr0 s npos = s).
  { intros s Hs. apply substr0_all. unfold npos. lia. }
  assert (Hsome : forall i s,
             (- 2 ^ 31 <= i < 2 ^ 31)%Z ->
             (Z.of_nat (String.length s) < 2 ^ 63)%Z ->
             substr0 s (to_size_t i) = shown (Some i) s).
  { intros i s Hi Hs. unfold shown, to_size_t. rewrite Hpow.
    destruct (0 <=? i)%Z eqn:E.
    - apply Z.leb_le in E. rewrite Z.mod_small by lia.
      now rewrite substr0_substring, Z_N_nat.
    - apply Z.leb_gt in E. apply substr0_all.
      assert (Hmod : (i mod 18446744073709551616
                      = i + 18446744073709551616)%Z).
      { symmetry. apply Z.mod_unique with (-1)%Z; lia. }
      rewrite Hmod. lia. }
  unfold says_width, read_truncateRuleWidth in *.
  destruct vars as [v|].
  - destruct (v "truncateRuleWidth"%string) as [x|].
    + destruct Hsays as (i & -> & ->). simpl. eexists.
      split; [reflexivity|]. intros s. now apply Hsome.
    + subst w. eexists. split; [reflexivity|]. exact Hnone.
  - subst w. eexists. split; [reflexivity|]. exact Hnone.
Qed.

Lemma read_showUUIDs_says (vars : option ruleparams_t) (b : bool) :
  says_showUUIDs vars b -> read_showUUIDs vars = inl b.
Proof.
  unfold says_showUUIDs, read_showUUIDs. destruct vars as [v|].
  - destruct (v "showUUIDs"%string) as [x|]; now intros ->.
  - now intros ->.
Qed.

Lemma rulesToString_listing_of (rules : list entry)
    (vars : option ruleparams_t) (b : bool) (w : option Z) :
  says_showUUIDs vars b -> says_width vars w ->
  match w with Some i => (- 2 ^ 31 <= i < 2 ^ 31)%Z | None => True end ->
  listable rule_toString rules ->
  listing rules vars =
  inl (listing_of format rule_toString action_toString uuid_to_string b w
         rules).
Proof.
  intros Hb Hw Hrange [Hshort _].
  destruct (read_truncateRuleWidth_shown vars w Hw Hrange)
    as (width & Hwidth & Hcut).
  unfold rulesToString. rewrite (read_showUUIDs_says vars b Hb), Hwidth.
  unfold listing_of, numbered.
  assert (Hmap : forall row : Z -> entry -> string,
             (forall num lim, In lim rules ->
                row num lim =
                line format rule_toString action_toString uuid_to_string b w
                  (num, lim)) ->
             map (fun p => row (fst p) (snd p))
               (combine (map Z.of_nat (seq 0 (length rules))) rules) =
             map (line format rule_toString action_toString uuid_to_string
                    b w)
               (combine (map Z.of_nat (seq 0 (length rules))) rules)).
  { intros row Hrow. apply map_ext_in. intros [num lim] Hin.
    apply in_combine_r in Hin. now apply Hrow. }
  rewrite Forall_forall in Hshort.
  destruct b; f_equal; rewrite (rows_lines _ rules 0); f_equal;
    unfold heading; f_equal; apply Hmap; intros num lim Hin;
    unfold row_with_uuids, row_plain, line; simpl;
    now rewrite (Hcut _ (Hshort lim Hin)).
Qed.

(** X20: With options of the right types, the listing of a chain is the
    heading followed by one row for each entry, in the order of the chain.
    The row of the entry at position [k] is made of [k], the name, the id
    and the creation order when [showUUIDs] is set, the match count, the
    description of the rule cut as [truncateRuleWidth] says, and the
    description of the action. *)
Theorem rulesToString_rows (rules : list entry) (vars : option ruleparams_t)
    (b : bool) (w : option Z) :
  says_showUUIDs vars b -> says_width vars w ->
  match w with Some i => (- 2 ^ 31 <= i < 2 ^ 31)%Z | None => True end ->
  listable rule_toString rules ->
  listing rules vars =
  inl (listing_of format rule_toString action_toString uuid_to_string b w
         rules).
Proof. apply rulesToString_listing_of. Qed.

(** X21: With [truncateRuleWidth] set to [w] and [showUUIDs] absent, every
    row of the listing shows the first [w] characters of the description of
    its rule, or all of it if that is less, when [w] is not negative; and
    all of the description when [w] is negative. *)
Theorem truncateRuleWidth_cuts (rules : list entry) (v : ruleparams_t)
    (w : Z) :
  v "truncateRuleWidth"%string = Some (ParamInt w) ->
  v "showUUIDs"%string = None ->
  (- 2 ^ 31 <= w < 2 ^ 31)%Z ->
  listable rule_toString rules ->
  listing rules (Some v) =
  inl (format fmt_plain
         [FmtString "#"; FmtString "Name"; FmtString "Matches";
          FmtString "Rule"; FmtString "Action"] ++
       fold_right String.append ""
         (map
            (fun p : Z * entry =>
               format fmt_plain
                 [FmtInt (fst p); FmtString (d_name (snd p));
                  FmtUInt (d_matches (d_rule (snd p)));
                  FmtString
                    (if (0 <=? w)%Z
                     then substring 0 (Z.to_nat w)
                            (rule_toString (d_rule (snd p)))
                     else rule_toString (d_rule (snd p)));
                  FmtString (action_toString (d_action (snd p)))])
            (combine (map Z.of_nat (seq 0 (length rules))) rules)))%string /\
  forall s,
    String.length (substring 0 (Z.to_nat w) s) =
    Nat.min (Z.to_nat w) (String.length s).
Proof.
  intros Hw Hs Hrange Hl. split; [|intros s; apply substring_length].
  rewrite (rulesToString_listing_of rules (Some v) false (Some w)).
  - reflexivity.
  - unfold says_showUUIDs. now rewrite Hs.
  - unfold says_width. rewrite Hw. now exists w.
  - exact Hrange.
  - exact Hl.
Qed.

Lemma reads_or_wrongly_typed (vars : option ruleparams_t) :
  (exists b width,
      read_showUUIDs vars = inl b /\ read_truncateRuleWidth vars = inl width /\
      ~ wrongly_typed vars) \/
  ((read_showUUIDs vars = inr bad_get \/
    exists b, read_showUUIDs vars = inl b /\
              read_truncateRuleWidth vars = inr bad_get) /\
   wrongly_typed vars).
Proof.
  unfold read_showUUIDs, read_truncateRuleWidth, wrongly_typed.
  destruct vars as [v|].
  2: { left. exists false, npos. repeat split.
       intros (v & x & H & _). discriminate. }
  destruct (v "showUUIDs"%string) as [x|] eqn:Hx.
  - destruct x as [b| | |];
      try (right; split;
           [left; reflexivity
           |exists v; eexists; split; [reflexivity|]; left;
            split; [exact Hx|]; discriminate]).
    destruct (v "truncateRuleWidth"%string) as [y|] eqn:Hy.
    + destruct y as [|i| |];
        try (right; split;
             [right; exists b; split; reflexivity
             |exists v; eexists; split; [reflexivity|]; right;
              split; [exact Hy|]; discriminate]).
      left. exists b, (to_size_t i). repeat split.
      intros (v' & x & Hv & [[Hx' Hb]|[Hy' Hi]]); injection Hv as <-.
      * rewrite Hx in Hx'. injection Hx' as <-. now apply (Hb b).
      * rewrite Hy in Hy'. injection Hy' as <-. now apply (Hi i).
    + left. exists b, npos. repeat split.
      intros (v' & x & Hv & [[Hx' Hb]|[Hy' Hi]]); injection Hv as <-.
      * rewrite Hx in Hx'. injection Hx' as <-. now apply (Hb b).
      * rewrite Hy in Hy'. discriminate.
  - destruct (v "truncateRuleWidth"%string) as [y|] eqn:Hy.
    + destruct y as [|i| |];
        try (right; split;
             [right; exists false; split; reflexivity
             |exists v; eexists; split; [reflexivity|]; right;
              split; [exact Hy|]; discriminate]).
      left. exists false, (to_size_t i). repeat split.
      intros (v' & x & Hv & [[Hx' Hb]|[Hy' Hi]]); injection Hv as <-.
      * rewrite Hx in Hx'. discriminate.
      * rewrite Hy in Hy'. injection Hy' as <-. now apply (Hi i).
    + left. exists false, npos. repeat split.
      intros (v' & x & Hv & [[Hx' Hb]|[Hy' Hi]]); injection Hv as <-.
      * rewrite Hx in Hx'. discriminate.
      * rewrite Hy in Hy'. discriminate.
Qed.

(** X22: [showRules] throws exactly when [showUUIDs] is there and not a
    boolean or [truncateRuleWidth] is there and not an integer, and then it
    changes nothing.  Otherwise it leaves the chain alone and adds the
    listing at the end of what [g_outputBuffer] holds. *)
Theorem showRules_appends (st : state) (vars : option ruleparams_t) :
  (wrongly_typed vars ->
   showRules format rule_toString action_toString uuid_to_string st vars =
   Threw bad_get st) /\
  (~ wrongly_typed vars ->
   exists s,
     listing (someRuleActions st) vars = inl s /\
     showRules format rule_toString action_toString uuid_to_string st vars =
     Done (mkLuaState (someRuleActions st) (g_outputBuffer st ++ s)%string)) /\
  (forall e st',
      showRules format rule_toString action_toString uuid_to_string st vars =
      Threw e st' -> wrongly_typed vars).
Proof.
  unfold showRules, rulesToString.
  destruct (reads_or_wrongly_typed vars)
    as [(b & width & Hb & Hwidth & Hok)|[Hthrow Hwrong]].
  - rewrite Hb, Hwidth. split; [|split].
    + intros H. now destruct (Hok H).
    + intros _. destruct b; eexists; split; reflexivity.
    + intros e st'. destruct b; discriminate.
  - split; [|split].
    + intros _. destruct Hthrow as [->|(b & -> & ->)]; reflexivity.
    + intros H. now destruct (H Hwrong).
    + intros _ _ _. exact Hwrong.
Qed.
End ListingFacts.

(** ** The further properties at sample inputs *)

Module OnMoreSamples.
Import Sample SampleMore SampleTies.
Local Open Scope string_scope.

Lemma chain_ids_differ : NoDup (map d_id chain).
Proof.
  repeat constructor; simpl; intuition discriminate.
Defined.

Lemma rmRule_position_witness :
  rmRule getUniqueID RightOperandFirst (st chain) (IdPos 5) =
    setOutput ("Error: attempt to delete non-existing rule" ++ LF) (st chain) /\
  S (length (someRuleActions
               (rmRule getUniqueID RightOperandFirst (st chain) (IdPos 1)))) =
    length chain.
Proof.
  split.
  - apply (proj1 (rmRule_position getUniqueID RightOperandFirst (st chain) 5)).
    simpl. lia.
  - refine (proj1 (proj2 (proj2 (rmRule_position getUniqueID RightOperandFirst
                                   (st chain) 1) _))).
    simpl. lia.
Defined.

Example rmRule_position_on_sample :
  someRuleActions (rmRule getUniqueID RightOperandFirst (st chain) (IdPos 1)) =
  [drop_a; dup1].
Proof. reflexivity. Qed.

Lemma mvRule_rearranges_witness :
  someRuleActions (mvRule (st chain) 0 3) <> someRuleActions (st chain) /\
  g_outputBuffer (mvRule (st chain) 0 3) = g_outputBuffer (st chain).
Proof.
  assert (H : someRuleActions (mvRule (st chain) 0 3) <>
              someRuleActions (st chain)) by discriminate.
  split; [exact H|].
  exact (proj2 (proj2 (mvRule_rearranges (st chain) 0 3)) H).
Defined.

Lemma mvRule_round_trip_witness :
  0 < length chain /\ 3 <= length chain /\
  mvRule (mvRule (st chain) 0 3) 2 0 = st chain.
Proof.
  assert (H0 : 0 < length (someRuleActions (st chain))) by (simpl; lia).
  assert (H3 : 3 <= length (someRuleActions (st chain))) by (simpl; lia).
  split; [exact H0|]. split; [exact H3|].
  exact (mvRule_round_trip (st chain) 0 3 H0 H3).
Defined.

Lemma moveRuleToTop_is_mvRule_witness :
  someRuleActions (st chain) <> [] /\
  moveRuleToTop (st chain) = mvRule (st chain) 2 0.
Proof.
  assert (H : someRuleActions (st chain) <> []) by discriminate.
  split; [exact H|]. exact (moveRuleToTop_is_mvRule (st chain) H).
Defined.

Lemma rmRule_unique_id_witness :
  NoDup (map d_id chain) /\ getUniqueID uuid_text = Some 42%N /\
  existsb (has_id 42%N) chain = true /\
  rmRule getUniqueID RightOperandFirst (st chain) (IdStr uuid_text) =
  setState [allow_all; dup1] (st chain).
Proof.
  split; [exact chain_ids_differ|]. split; [reflexivity|].
  split; [reflexivity|].
  exact (proj1 (rmRule_unique_id getUniqueID (st chain) uuid_text 42%N
                  chain_ids_differ eq_refl eq_refl)).
Defined.

Lemma ids_stay_unique_witness :
  NoDup (map d_id chain) /\
  NoDup (map d_id (someRuleActions (mvRule (st chain) 0 3))).
Proof.
  split; [exact chain_ids_differ|].
  exact (proj1 (proj2 (ids_stay_unique getUniqueID RightOperandFirst
                         (st chain) (IdPos 0) 0 3 chain_ids_differ))).
Defined.

Lemma lua_getTopRules_length_witness :
  std_sort_spec sort_ties_kept /\
  exists res,
    lua_getTopRules sort_ties_kept (st chain) (Some 2) = Ok res /\
    length res = 2.
Proof.
  split; [exact sort_ties_kept_spec|].
  exact (lua_getTopRules_length sort_ties_kept (st chain) (Some 2)
           sort_ties_kept_spec).
Defined.

Lemma getTopRules_takes_the_top_witness :
  std_sort_spec sort_ties_kept /\
  exists res rest,
    getTopRules sort_ties_kept chain 2 = Ok res /\
    Permutation (res ++ rest) chain /\
    forall x y, In x res -> In y rest ->
      (d_matches (d_rule y) <= d_matches (d_rule x))%N.
Proof.
  split; [exact sort_ties_kept_spec|].
  exact (getTopRules_takes_the_top sort_ties_kept chain 2 sort_ties_kept_spec).
Defined.

Lemma getTopRules_prefix_witness :
  std_sort_spec sort_ties_kept /\ 0 < 1 /\ 1 <= 2 /\
  exists res,
    getTopRules sort_ties_kept chain 2 = Ok res /\
    getTopRules sort_ties_kept chain 1 = Ok (firstn 1 res).
Proof.
  split; [exact sort_ties_kept_spec|]. split; [lia|]. split; [lia|].
  refine (getTopRules_prefix sort_ties_kept chain 1 2 sort_ties_kept_spec _ _);
    lia.
Defined.

(** An entry without an action is left out by [setRules]. *)
Example setRules_on_sample :
  setRules Netmask_of_string DNSName_of_string has_action new_rules (st chain) =
  Ok (st [drop_a; allow_all]).
Proof. reflexivity. Qed.

(** A name of 272 characters after a mask: [makeRule] throws for it. *)
Example makeRule_on_bad_name :
  makeRule Netmask_of_string DNSName_of_string (VarStrings with_bad_name) =
  Err (MalformedPattern too_long).
Proof. reflexivity. Qed.

Lemma counting_rules_checked_witness :
  (0 <= 1)%Z /\ (0 <= 28)%Z /\ (0 <= 0)%Z /\ (0 <= 10)%Z /\
  (@lua_RecordsTypeCountRule string string 1 28 0 10 =
     Ok (new (RecordsTypeCountRule 1 28 0 10)) <->
   (1 <= 255 /\ 28 <= 65535 /\ 0 <= 65535 /\ 10 <= 65535)%Z /\
   (new (RecordsTypeCountRule 1 28 0 10) : @DNSRule string string) =
   new (RecordsTypeCountRule 1 28 0 10)).
Proof.
  assert (H1 : (0 <= 1)%Z) by lia. assert (H2 : (0 <= 28)%Z) by lia.
  assert (H3 : (0 <= 0)%Z) by lia. assert (H4 : (0 <= 10)%Z) by lia.
  repeat (split; [assumption|]).
  exact (proj1 (counting_rules_checked 1 28 0 10
                  (new (RecordsTypeCountRule 1 28 0 10)) H1 H2 H3 H4)).
Defined.

Lemma lua_QTypeRule_by_name_witness :
  to_uint16 (chartocode "bogus") = 0%Z /\
  @lua_QTypeRule string string chartocode (QTypeName "bogus") =
    Err (UnableToConvert "bogus") /\
  to_uint16 (chartocode "AAAA") <> 0%Z /\
  @lua_QTypeRule string string chartocode (QTypeName "AAAA") =
    Ok (new (QTypeRule 28)).
Proof.
  assert (H : to_uint16 (chartocode "AAAA") <> 0%Z) by discriminate.
  split; [reflexivity|]. split.
  - exact (proj1 (lua_QTypeRule_by_name chartocode "bogus") eq_refl).
  - split; [exact H|].
    exact (proj1 (proj1 (proj2 (lua_QTypeRule_by_name chartocode "AAAA")) H)).
Defined.

Lemma parseRuleParams_creation_orders_witness :
  (s_creationOrder params_state < 2 ^ 64)%N /\
  ref_creationOrder
    (mkRuleParamsState 8%N "block-a" 6%N 7%N) <>
  ref_creationOrder (mkRuleParamsState 9%N "" 5%N 6%N).
Proof.
  assert (H : (s_creationOrder params_state < 2 ^ 64)%N) by (simpl; lia).
  split; [exact H|].
  exact (proj1 (proj2 (proj2
    (parseRuleParams_creation_orders getUniqueID 9%N 8%N None
       (Some (fun k => if String.eqb k "name" then Some "block-a" else None))
       params_state (mkRuleParamsState 9%N "" 5%N 6%N)
       (mkRuleParamsState 8%N "block-a" 6%N 7%N) H eq_refl eq_refl)))).
Defined.

Lemma parseRuleParams_bad_uuid_witness :
  bad_uuid_params "uuid" = Some "not-a-uuid" /\ "not-a-uuid" <> "" /\
  getUniqueID "not-a-uuid" = None /\
  exists st',
    parseRuleParams getUniqueID 9%N (Some bad_uuid_params) params_state =
    Threw (not_a_uuid "not-a-uuid") st' /\
    s_creationOrder st' = s_creationOrder params_state /\
    ref_creationOrder st' = ref_creationOrder params_state /\
    ref_uuid st' = ref_uuid params_state.
Proof.
  assert (H : "not-a-uuid" <> "") by discriminate.
  split; [reflexivity|]. split; [exact H|]. split; [reflexivity|].
  exact (parseRuleParams_bad_uuid getUniqueID 9%N bad_uuid_params
           "not-a-uuid" params_state eq_refl H eq_refl).
Defined.

Lemma parseRuleParams_defaults_witness :
  exists st',
    parseRuleParams getUniqueID 9%N (Some no_params) params_state = Done st' /\
    ref_uuid st' = 9%N /\
    (no_params "name" = None -> ref_name st' = ref_name params_state).
Proof.
  exact (parseRuleParams_defaults getUniqueID 9%N (Some no_params)
           params_state (or_introl eq_refl)).
Defined.

(** With a name and a UUID given, the rule gets both. *)
Example parseRuleParams_on_sample :
  parseRuleParams getUniqueID 9%N (Some named_params) params_state =
  Done (mkRuleParamsState 42%N "block-a" 5%N 6%N).
Proof. reflexivity. Qed.

Abbreviation listing :=
  (rulesToString format rule_toString action_toString uuid_to_string).

Example rulesToString_on_sample :
  listing [drop_a; allow_all] None =
  inl ("# Name Matches Rule Action" ++ LF ++
       "0 block-a 7 qtype==1 Drop" ++ LF ++
       "1 default 7 All Allow" ++ LF).
Proof. reflexivity. Qed.

Example rulesToString_on_cut :
  listing [drop_a; allow_all] (Some (width_vars 5)) =
  inl ("# Name Matches Rule Action" ++ LF ++
       "0 block-a 7 qtype Drop" ++ LF ++
       "1 default 7 All Allow" ++ LF).
Proof. reflexivity. Qed.

Lemma sample_listable : listable rule_toString [drop_a; allow_all].
Proof.
  split; [repeat constructor; simpl; lia | simpl; lia].
Defined.

Lemma rulesToString_rows_witness :
  says_showUUIDs (Some (width_vars 5)) false /\
  says_width (Some (width_vars 5)) (Some 5%Z) /\
  (- 2 ^ 31 <= 5 < 2 ^ 31)%Z /\
  listable rule_toString [drop_a; allow_all] /\
  listing [drop_a; allow_all] (Some (width_vars 5)) =
  inl (listing_of format rule_toString action_toString uuid_to_string false
         (Some 5%Z) [drop_a; allow_all]).
Proof.
  assert (Hb : says_showUUIDs (Some (width_vars 5)) false) by reflexivity.
  assert (Hw : says_width (Some (width_vars 5)) (Some 5%Z))
    by (exists 5%Z; split; reflexivity).
  assert (Hr : (- 2 ^ 31 <= 5 < 2 ^ 31)%Z) by lia.
  split; [exact Hb|]. split; [exact Hw|]. split; [exact Hr|].
  split; [exact sample_listable|].
  exact (rulesToString_rows format rule_toString action_toString
           uuid_to_string [drop_a; allow_all] (Some (width_vars 5)) false
           (Some 5%Z) Hb Hw Hr sample_listable).
Defined.

Lemma truncateRuleWidth_cuts_witness :
  width_vars 5 "truncateRuleWidth" = Some (ParamInt 5) /\
  width_vars 5 "showUUIDs" = None /\
  (- 2 ^ 31 <= 5 < 2 ^ 31)%Z /\
  listable rule_toString [drop_a; allow_all] /\
  listing [drop_a; allow_all] (Some (width_vars 5)) =
  inl ("# Name Matches Rule Action" ++ LF ++
       "0 block-a 7 qtype Drop" ++ LF ++
       "1 default 7 All Allow" ++ LF).
Proof.
  assert (Hr : (- 2 ^ 31 <= 5 < 2 ^ 31)%Z) by lia.
  split; [reflexivity|]. split; [reflexivity|]. split; [exact Hr|].
  split; [exact sample_listable|].
  exact (proj1 (truncateRuleWidth_cuts format rule_toString action_toString
                  uuid_to_string [drop_a; allow_all] (width_vars 5) 5
                  eq_refl eq_refl Hr sample_listable)).
Defined.

Lemma sample_wrongly_typed : wrongly_typed (Some wrong_vars).
Proof.
  exists wrong_vars, (ParamInt 1). split; [reflexivity|]. left.
  split; [reflexivity | discriminate].
Defined.

Lemma showRules_appends_witness :
  wrongly_typed (Some wrong_vars) /\
  showRules format rule_toString action_toString uuid_to_string (st chain)
    (Some wrong_vars) = Threw bad_get (st chain).
Proof.
  split; [exact sample_wrongly_typed|].
  exact (proj1 (showRules_appends format rule_toString action_toString
                  uuid_to_string (st chain) (Some wrong_vars))
           sample_wrongly_typed).
Defined.

(** A number where a boolean is expected: [showRules] throws. *)
Example showRules_on_wrong_vars :
  showRules format rule_toString action_toString uuid_to_string (st chain)
    (Some wrong_vars) = Threw bad_get (st chain).
Proof. reflexivity. Qed.

(** Up to sixteen entries [std_sort] is an insertion sort, which keeps
    ties in place. *)
Example getTopRules_std_sort_on_two :
  getTopRules std_sort tied_chain 2 = Ok [drop_a; allow_all].
Proof. reflexivity. Qed.

Lemma tied17_position (p i : nat) :
  nth_error tied17 p = Some (tied i) -> p = i.
Proof.
  unfold tied17. intros H. rewrite nth_error_map in H.
  destruct (nth_error (seq 0 17) p) as [q|] eqn:Hq; [|discriminate].
  assert (Hp : p < length (seq 0 17)) by (apply nth_error_Some; congruence).
  rewrite length_seq in Hp.
  apply (nth_error_nth _ _ 0) in Hq. rewrite seq_nth in Hq by exact Hp.
  simpl in H, Hq. assert (Hqi : tied q = tied i) by congruence.
  apply (f_equal d_id) in Hqi. simpl in Hqi. lia.
Qed.

(** C2: seventeen rules that have not matched yet.  [std::sort], as the
    library of the build has it, partitions a range of more than sixteen
    pairs around a median and swaps pairs with equal counts across it: the
    rules come back in the order of the positions 8, 16, 15, ..., 9, 0, 7,
    ..., 1, not in the order of their positions in the chain. *)
Lemma getTopRules_ties_scrambled :
  getTopRules std_sort tied17 17 = Ok (map tied scrambled) /\
  Forall (fun r => d_matches (d_rule r) = 0%N) tied17 /\
  ~ ties_by_position tied17 (map tied scrambled).
Proof.
  split; [vm_compute; reflexivity|]. split.
  { unfold tied17. apply Forall_forall. intros r Hr.
    apply in_map_iff in Hr. now destruct Hr as (i & <- & _). }
  intros (sel & Hsel & Hsorted). unfold scrambled in Hsel. simpl in Hsel.
  inversion Hsel as [|e0 r0 sel0 res0 _ Hsel0]; subst.
  inversion Hsel0 as [|e1 r1 sel1 res1 [Hn1 Hc1] Hsel1]; subst.
  inversion Hsel1 as [|e2 r2 sel2 res2 [Hn2 Hc2] Hsel2]; subst.
  apply tied17_position in Hn1, Hn2.
  apply StronglySorted_inv in Hsorted. destruct Hsorted as [Hsorted _].
  apply StronglySorted_inv in Hsorted. destruct Hsorted as [_ Hfirst].
  apply Forall_inv in Hfirst.
  rewrite Hn1, Hn2, Hc1, Hc2 in Hfirst. specialize (Hfirst eq_refl). lia.
Qed.

(** C6: a mask, then a name of 272 characters, which [DNSName] refuses:
    a mask was accepted, and [makeRule] throws instead of returning the
    netmask group rule. *)
Lemma makeRule_throws_after_mask :
  masks_of Netmask_of_string with_bad_name = ["10.0.0.0/8"] /\
  makeRule Netmask_of_string DNSName_of_string (VarStrings with_bad_name) =
    Err (MalformedPattern too_long) /\
  makeRule Netmask_of_string DNSName_of_string (VarStrings with_bad_name) <>
    Ok (new (NetmaskGroupRule (masks_of Netmask_of_string with_bad_name)
               true false)).
Proof.
  split; [reflexivity|]. split; [reflexivity|]. discriminate.
Qed.

Lemma makeRule_masks_win_witness :
  suffix_or_mask Netmask_of_string DNSName_of_string mixed /\
  masks_of Netmask_of_string mixed <> [] /\
  makeRule Netmask_of_string DNSName_of_string (VarStrings mixed) =
    Ok (new (NetmaskGroupRule (masks_of Netmask_of_string mixed) true false)) /\
  first_refused Netmask_of_string DNSName_of_string with_bad_name =
    Some too_long /\
  makeRule Netmask_of_string DNSName_of_string (VarStrings with_bad_name) =
    Err (MalformedPattern too_long).
Proof.
  assert (Hwf : suffix_or_mask Netmask_of_string DNSName_of_string mixed).
  { intros e [<-|[<-|[]]]; simpl; discriminate. }
  assert (Hne : masks_of Netmask_of_string mixed <> []) by discriminate.
  split; [exact Hwf|]. split; [exact Hne|]. split.
  - exact (proj1 (proj1 (makeRule_masks_win Netmask_of_string
                           DNSName_of_string mixed) Hwf) Hne).
  - split; [reflexivity|].
    exact (proj1 (proj1 (proj2 (makeRule_masks_win Netmask_of_string
                                  DNSName_of_string with_bad_name))
                    too_long eq_refl)).
Defined.
End OnMoreSamples.
